(** * go-statsd: the buffering and dispatch pipeline of the client

    A shallow embedding of [client.go] (metric emission, [NewClient],
    [Close]), [buffers.go] ([checkBuf], [flushBuf]) and [loops.go]
    ([flushLoop], [sendLoop], [reportLoop]), and the properties of the
    pipeline stated over it.

    Conventions of the embedding:
    - [[]byte] and Go strings are [list byte]; only the contents of a slice
      are modelled, not its capacity: a buffer has one owner at a time (the
      client, the pool, the queue or a worker), so no two live slices share
      an array that is written.
    - [int] and [int64] are [Z]; where the code computes on them the 64-bit
      wrap-around is written out ([Int64.wrap]).
    - [float64] is the kernel's binary64 ([PrimFloat.float]).
    - a buffered channel is a FIFO with a capacity and a closed flag; the
      non-blocking [select] with a [default] branch is [trySend]/[tryRecv].
    - a Go panic is the [Panic] result; nothing runs after it.
    - [bufLock] is not a field: every emission runs its critical section in
      one step, and the steps of the background loops are interleaved with
      them by the list of events given to [run]. *)

From Stdlib Require Import ZArith List Bool Lia String Floats.
From Stdlib Require Import Strings.Byte.
Import ListNotations.
Local Open Scope Z_scope.

(** ** Byte strings *)

Definition bytes := list byte.

Definition B (s : string) : bytes := list_byte_of_string s.

Definition newline : byte := x0a.

Definition len {A : Type} (b : list A) : Z := Z.of_nat (List.length b).

(** [b[lo:hi]] for in-range bounds. *)
Definition slice (b : bytes) (lo hi : Z) : bytes :=
  firstn (Z.to_nat (hi - lo)) (skipn (Z.to_nat lo) b).

(** ** 64-bit signed integers *)

Module Int64.
Definition min_int : Z := - 2 ^ 63.
Definition max_int : Z := 2 ^ 63 - 1.
Definition wrap (z : Z) : Z := (z + 2 ^ 63) mod 2 ^ 64 - 2 ^ 63.
Definition add (a b : Z) : Z := wrap (a + b).
Definition neg (a : Z) : Z := wrap (- a).
Definition in_range (z : Z) : Prop := min_int <= z <= max_int.
End Int64.

(** ** Results of code that may panic *)

Inductive Result (A : Type) : Type :=
| Ok (a : A)
| Panic (msg : string).
Arguments Ok {A} a.
Arguments Panic {A} msg.

Definition bind {A B : Type} (r : Result A) (k : A -> Result B) : Result B :=
  match r with
  | Ok a => k a
  | Panic m => Panic m
  end.

Notation "x <- e ;; k" := (bind e (fun x => k))
  (at level 61, e at next level, right associativity).

(** ** Channels *)

Record chan (A : Type) : Type := mkChan {
  items : list A;
  capacity : Z;
  closed : bool
}.
Arguments mkChan {A}.
Arguments items {A}.
Arguments capacity {A}.
Arguments closed {A}.

(** [make(chan A, n)] *)
Definition makeChan {A : Type} (n : Z) : chan A := mkChan [] n false.

Inductive SendOutcome (A : Type) : Type :=
| Sent (ch : chan A)
| WouldBlock
| SendOnClosed.
Arguments Sent {A} ch.
Arguments WouldBlock {A}.
Arguments SendOnClosed {A}.

(** [select { case ch <- v: default: }] *)
Definition trySend {A : Type} (ch : chan A) (v : A) : SendOutcome A :=
  if closed ch then SendOnClosed
  else if len (items ch) <? capacity ch
       then Sent (mkChan (items ch ++ [v]) (capacity ch) false)
       else WouldBlock.

Inductive RecvOutcome (A : Type) : Type :=
| Received (v : A) (ch : chan A)
| RecvEmpty
| RecvClosed.
Arguments Received {A} v ch.
Arguments RecvEmpty {A}.
Arguments RecvClosed {A}.

(** [select { case v, ok = <-ch: default: }]; a closed channel still hands
    out what it holds, and then reports [ok = false]. *)
Definition tryRecv {A : Type} (ch : chan A) : RecvOutcome A :=
  match items ch with
  | v :: rest => Received v (mkChan rest (capacity ch) (closed ch))
  | [] => if closed ch then RecvClosed else RecvEmpty
  end.

(** [close(ch)] *)
Definition closeChan {A : Type} (ch : chan A) : Result (chan A) :=
  if closed ch then Panic "close of closed channel"
  else Ok (mkChan (items ch) (capacity ch) true).

Definition full {A : Type} (ch : chan A) : Prop :=
  capacity ch <= len (items ch).

(** ** strconv *)

Module strconv.

Definition digit (d : Z) : byte :=
  match Byte.of_N (Z.to_N (48 + d)) with
  | Some b => b
  | None => x30
  end.

(** The digit loop of [formatBits] in base 10: [fuel] bounds the number
    of digits; 20 digits hold every [uint64]. *)
Fixpoint formatBits (fuel : nat) (u : Z) (acc : bytes) : bytes :=
  match fuel with
  | O => acc
  | S fuel' =>
      if 10 <=? u
      then formatBits fuel' (u / 10) (digit (u mod 10) :: acc)
      else digit u :: acc
  end.

Definition FormatInt (i : Z) : bytes :=
  if i <? 0
  then x2d :: formatBits 20 ((- i) mod 2 ^ 64) []
  else formatBits 20 i [].

(** [strconv.AppendInt(dst, i, 10)] *)
Definition AppendInt (dst : bytes) (i : Z) : bytes := dst ++ FormatInt i.

End strconv.

(** ** time *)

Module time.
(** [time.Duration] counts nanoseconds. *)
Definition Millisecond : Z := 1000000.
End time.

(** [float64(i)] for an [int64]: the nearest binary64. *)
Definition float64_of_int64 (i : Z) : float :=
  SF2Prim (binary_normalize 53 1024 i 0 false).

(** ** The client *)

(** Modelled from the spec: the declaration of [ClientOptions] (options.go)
    is not among the sources; the fields are the ones [NewClient] sets and
    the configuration surface the specification lists.  The logger is not a
    field here: what it prints is the [logged] component of the [World]. *)
Record ClientOptions : Type := mkOptions {
  Addr : bytes;
  MetricPrefix : bytes;
  MaxPacketSize : Z;
  FlushInterval : Z;
  ReconnectInterval : Z;
  ReportInterval : Z;
  RetryTimeout : Z;
  BufPoolCapacity : Z;
  SendQueueCapacity : Z;
  SendLoopCount : Z
}.

Record Client : Type := mkClient {
  options : ClientOptions;
  bufPool : chan bytes;
  buf : bytes;
  bufSize : Z;
  sendQueue : chan bytes;
  shutdown : chan unit;
  shutdownWg : Z;
  lostPacketsPeriod : Z;
  lostPacketsOverall : Z
}.

Definition with_buf (c : Client) (b : bytes) : Client :=
  mkClient (options c) (bufPool c) b (bufSize c) (sendQueue c)
           (shutdown c) (shutdownWg c)
           (lostPacketsPeriod c) (lostPacketsOverall c).

Definition with_bufPool (c : Client) (p : chan bytes) : Client :=
  mkClient (options c) p (buf c) (bufSize c) (sendQueue c)
           (shutdown c) (shutdownWg c)
           (lostPacketsPeriod c) (lostPacketsOverall c).

Definition with_sendQueue (c : Client) (q : chan bytes) : Client :=
  mkClient (options c) (bufPool c) (buf c) (bufSize c) q
           (shutdown c) (shutdownWg c)
           (lostPacketsPeriod c) (lostPacketsOverall c).

Definition with_shutdown (c : Client) (s : chan unit) : Client :=
  mkClient (options c) (bufPool c) (buf c) (bufSize c) (sendQueue c)
           s (shutdownWg c)
           (lostPacketsPeriod c) (lostPacketsOverall c).

Definition with_shutdownWg (c : Client) (n : Z) : Client :=
  mkClient (options c) (bufPool c) (buf c) (bufSize c) (sendQueue c)
           (shutdown c) n
           (lostPacketsPeriod c) (lostPacketsOverall c).

Definition with_lostPacketsPeriod (c : Client) (n : Z) : Client :=
  mkClient (options c) (bufPool c) (buf c) (bufSize c) (sendQueue c)
           (shutdown c) (shutdownWg c)
           n (lostPacketsOverall c).

Definition with_lostPacketsOverall (c : Client) (n : Z) : Client :=
  mkClient (options c) (bufPool c) (buf c) (bufSize c) (sendQueue c)
           (shutdown c) (shutdownWg c)
           (lostPacketsPeriod c) n.

(** *** buffers.go *)

(** [flushBuf] sends the first [length] bytes of the buffer to the queue and
    starts a new buffer with the rest.  The two slice expressions panic
    unless [0 <= length <= len(c.buf)].  A buffer taken from the pool is cut
    to [[0:0]]; with an empty pool a new one is made. *)
Definition flushBuf (c : Client) (length : Z) : Result Client :=
  if (length <? 0) || (len (buf c) <? length)
  then Panic "slice bounds out of range"
  else
    let sendBuf := slice (buf c) 0 length in
    let tail := slice (buf c) length (len (buf c)) in
    (* get new buffer *)
    let c :=
      match tryRecv (bufPool c) with
      | Received b pool => with_buf (with_bufPool c pool) (slice b 0 0)
      | RecvEmpty => with_buf c []
      | RecvClosed => with_buf c []
      end in
    (* copy tail to the new buffer *)
    let c := with_buf c (buf c ++ tail) in
    (* flush current buffer *)
    match trySend (sendQueue c) sendBuf with
    | Sent q => Ok (with_sendQueue c q)
    | WouldBlock =>
        (* flush failed, we lost some data *)
        let c := with_lostPacketsPeriod c (Int64.add (lostPacketsPeriod c) 1) in
        let c := with_lostPacketsOverall c (Int64.add (lostPacketsOverall c) 1) in
        Ok c
    | SendOnClosed => Panic "send on closed channel"
    end.

(** [checkBuf] flushes the buffer up to [lastLen] bytes on overflow. *)
Definition checkBuf (c : Client) (lastLen : Z) : Result Client :=
  if len (buf c) >? MaxPacketSize (options c)
  then flushBuf c lastLen
  else Ok c.

(** *** client.go: metric emission *)

Definition GetLostPackets (c : Client) : Z := lostPacketsOverall c.

Definition Incr (c : Client) (stat : bytes) (count : Z) : Result Client :=
  if negb (0 =? count) then
    let lastLen := len (buf c) in
    let c := with_buf c (buf c ++ MetricPrefix (options c)) in
    let c := with_buf c (buf c ++ stat) in
    let c := with_buf c (buf c ++ [x3a]) in
    let c := with_buf c (strconv.AppendInt (buf c) count) in
    let c := with_buf c (buf c ++ B "|c" ++ [newline]) in
    checkBuf c lastLen
  else Ok c.

Definition Decr (c : Client) (stat : bytes) (count : Z) : Result Client :=
  Incr c stat (Int64.neg count).

Definition Timing (c : Client) (stat : bytes) (delta : Z) : Result Client :=
  let lastLen := len (buf c) in
  let c := with_buf c (buf c ++ MetricPrefix (options c)) in
  let c := with_buf c (buf c ++ stat) in
  let c := with_buf c (buf c ++ [x3a]) in
  let c := with_buf c (strconv.AppendInt (buf c) delta) in
  let c := with_buf c (buf c ++ B "|ms" ++ [newline]) in
  checkBuf c lastLen.

Definition igauge (c : Client) (stat : bytes) (sign : bytes) (value : Z)
  : Result Client :=
  let lastLen := len (buf c) in
  let c := with_buf c (buf c ++ MetricPrefix (options c)) in
  let c := with_buf c (buf c ++ stat) in
  let c := with_buf c (buf c ++ [x3a]) in
  let c := with_buf c (buf c ++ sign) in
  let c := with_buf c (strconv.AppendInt (buf c) value) in
  let c := with_buf c (buf c ++ B "|g" ++ [newline]) in
  checkBuf c lastLen.

Definition Gauge (c : Client) (stat : bytes) (value : Z) : Result Client :=
  c <- (if value <? 0 then igauge c stat [] 0 else Ok c) ;;
  igauge c stat [] value.

Definition GaugeDelta (c : Client) (stat : bytes) (value : Z)
  : Result Client :=
  if value <? 0
  then igauge c stat [] value
  else igauge c stat [x2b] value.

Definition SetAdd (c : Client) (stat : bytes) (value : bytes)
  : Result Client :=
  let lastLen := len (buf c) in
  let c := with_buf c (buf c ++ MetricPrefix (options c)) in
  let c := with_buf c (buf c ++ stat) in
  let c := with_buf c (buf c ++ [x3a]) in
  let c := with_buf c (buf c ++ value) in
  let c := with_buf c (buf c ++ B "|s" ++ [newline]) in
  checkBuf c lastLen.

Section FloatMetrics.

(** [strconv.AppendFloat(dst, f, 'f', -1, 64)] appends [FormatFloat f] to
    [dst]: the shortest decimal that reads back as [f].  The claims below
    hold whatever this text is. *)
Variable FormatFloat : float -> bytes.

Definition AppendFloat (dst : bytes) (f : float) : bytes :=
  dst ++ FormatFloat f.

Definition PrecisionTiming (c : Client) (stat : bytes) (delta : Z)
  : Result Client :=
  let lastLen := len (buf c) in
  let c := with_buf c (buf c ++ MetricPrefix (options c)) in
  let c := with_buf c (buf c ++ stat) in
  let c := with_buf c (buf c ++ [x3a]) in
  let c := with_buf c
    (AppendFloat (buf c)
       (PrimFloat.div (float64_of_int64 delta)
                      (float64_of_int64 time.Millisecond))) in
  let c := with_buf c (buf c ++ B "|ms" ++ [newline]) in
  checkBuf c lastLen.

Definition fgauge (c : Client) (stat : bytes) (sign : bytes) (value : float)
  : Result Client :=
  let lastLen := len (buf c) in
  let c := with_buf c (buf c ++ MetricPrefix (options c)) in
  let c := with_buf c (buf c ++ stat) in
  let c := with_buf c (buf c ++ [x3a]) in
  let c := with_buf c (buf c ++ sign) in
  let c := with_buf c (AppendFloat (buf c) value) in
  let c := with_buf c (buf c ++ B "|g" ++ [newline]) in
  checkBuf c lastLen.

Definition FGauge (c : Client) (stat : bytes) (value : float)
  : Result Client :=
  c <- (if PrimFloat.ltb value PrimFloat.zero
        then igauge c stat [] 0 else Ok c) ;;
  fgauge c stat [] value.

Definition FGaugeDelta (c : Client) (stat : bytes) (value : float)
  : Result Client :=
  if PrimFloat.ltb value PrimFloat.zero
  then fgauge c stat [] value
  else fgauge c stat [x2b] value.

End FloatMetrics.

(** *** client.go: Close *)

(** [Close] closes the shutdown channel, which panics when it is closed
    already, and then waits on [shutdownWg]: it returns [nil] once
    [CloseReturns] holds.  The background loops run in between, as events
    of their own. *)
Definition Close (c : Client) : Result Client :=
  s <- closeChan (shutdown c) ;;
  Ok (with_shutdown c s).

Definition CloseReturns (c : Client) : bool := shutdownWg c =? 0.

(** ** The client with its background loops *)

Inductive LogRecord : Type :=
| LogDialError            (* [STATSD] Error connecting to server: %s *)
| LogWriteError           (* [STATSD] Error writing to socket: %s *)
| LogLost (lostPeriod : Z). (* [STATSD] %d packets lost (overflow) *)

(** Where a [sendLoop] goroutine stands: at the label [RECONNECT], in the
    receiving loop with a connected socket, at the label [WAIT], or
    returned. *)
Inductive Worker : Type :=
| RECONNECT
| READY
| WAIT
| EXITED.

Record World : Type := mkWorld {
  client : Client;
  flushLoopRunning : bool;
  senders : list Worker;
  reportLoopRunning : bool;
  wire : list bytes;        (* the datagrams written, oldest first *)
  logged : list LogRecord   (* what the logger printed, oldest first *)
}.

Definition with_client (w : World) (c : Client) : World :=
  mkWorld c (flushLoopRunning w) (senders w) (reportLoopRunning w)
          (wire w) (logged w).

Definition with_wire (w : World) (d : list bytes) : World :=
  mkWorld (client w) (flushLoopRunning w) (senders w) (reportLoopRunning w)
          d (logged w).

Definition printf (w : World) (r : LogRecord) : World :=
  mkWorld (client w) (flushLoopRunning w) (senders w) (reportLoopRunning w)
          (wire w) (logged w ++ [r]).

(** [shutdownWg.Done()] *)
Definition wgDone (c : Client) : Result Client :=
  if shutdownWg c - 1 <? 0
  then Panic "sync: negative WaitGroup counter"
  else Ok (with_shutdownWg c (shutdownWg c - 1)).

(** *** loops.go: flushLoop *)

Inductive FlushInput : Type :=
| FlushShutdown   (* case <-c.shutdown *)
| FlushTick.      (* case <-flushC *)

Definition flushWhole (c : Client) : Result Client :=
  if len (buf c) >? 0 then flushBuf c (len (buf c)) else Ok c.

(** One turn of the [select] of [flushLoop].  A case that is not ready
    leaves the world as it is: the shutdown case needs the channel closed,
    the tick case needs the ticker, made only for a positive interval. *)
Definition flushLoop (w : World) (inp : FlushInput) : Result World :=
  if negb (flushLoopRunning w) then Ok w
  else
    match inp with
    | FlushShutdown =>
        if closed (shutdown (client w)) then
          c <- flushWhole (client w) ;;
          q <- closeChan (sendQueue c) ;;
          Ok (mkWorld (with_sendQueue c q) false (senders w)
                      (reportLoopRunning w) (wire w) (logged w))
        else Ok w
    | FlushTick =>
        if FlushInterval (options (client w)) >? 0 then
          c <- flushWhole (client w) ;;
          Ok (with_client w c)
        else Ok w
    end.

(** *** loops.go: sendLoop *)

Inductive SendInput : Type :=
| Dial (err : bool)     (* net.Dial returned, with an error or not *)
| Slept                 (* time.Sleep(RetryTimeout) returned *)
| Recv (err : bool)     (* the queue case; [err]: the result of sock.Write *)
| ReconnectTick.        (* case <-reconnectC *)

(** return buffer to the pool *)
Definition returnToPool (c : Client) (b : bytes) : Result Client :=
  match trySend (bufPool c) b with
  | Sent p => Ok (with_bufPool c p)
  | WouldBlock => Ok c
  | SendOnClosed => Panic "send on closed channel"
  end.

(** One step of a [sendLoop] goroutine standing at [st]. *)
Definition sendLoop (w : World) (st : Worker) (inp : SendInput)
  : Result (Worker * World) :=
  match st, inp with
  | RECONNECT, Dial false => Ok (READY, w)
  | RECONNECT, Dial true => Ok (WAIT, printf w LogDialError)
  | WAIT, Slept => Ok (RECONNECT, w)
  | READY, Recv err =>
      match tryRecv (sendQueue (client w)) with
      | RecvEmpty => Ok (READY, w)
      | RecvClosed =>
          c <- wgDone (client w) ;;
          Ok (EXITED, with_client w c)
      | Received b q =>
          let w := with_client w (with_sendQueue (client w) q) in
          if (len b >? 0) && err then
            Ok (WAIT, printf w LogWriteError)
          else
            (* cut off \n in the end *)
            let w := if len b >? 0
                     then with_wire w (wire w ++ [slice b 0 (len b - 1)])
                     else w in
            c <- returnToPool (client w) b ;;
            Ok (READY, with_client w c)
      end
  | READY, ReconnectTick =>
      if ReconnectInterval (options (client w)) >? 0
      then Ok (RECONNECT, w)
      else Ok (READY, w)
  | _, _ => Ok (st, w)
  end.

(** *** loops.go: reportLoop *)

Inductive ReportInput : Type :=
| ReportShutdown  (* case <-c.shutdown *)
| ReportTick.     (* case <-reportTicker.C *)

Definition reportLoop (w : World) (inp : ReportInput) : Result World :=
  if negb (reportLoopRunning w) then Ok w
  else
    match inp with
    | ReportShutdown =>
        if closed (shutdown (client w)) then
          c <- wgDone (client w) ;;
          Ok (mkWorld c (flushLoopRunning w) (senders w) false
                      (wire w) (logged w))
        else Ok w
    | ReportTick =>
        let lostPeriod := lostPacketsPeriod (client w) in
        let w := with_client w (with_lostPacketsPeriod (client w) 0) in
        if lostPeriod >? 0 then Ok (printf w (LogLost lostPeriod)) else Ok w
    end.

(** *** client.go: NewClient *)

(** Modelled from the spec: the [Default...] constants (options.go) are not
    among the sources; they are taken as given. *)
Record Defaults : Type := mkDefaults {
  DefaultMetricPrefix : bytes;
  DefaultMaxPacketSize : Z;
  DefaultFlushInterval : Z;
  DefaultReconnectInterval : Z;
  DefaultReportInterval : Z;
  DefaultRetryTimeout : Z;
  DefaultBufPoolCapacity : Z;
  DefaultSendQueueCapacity : Z;
  DefaultSendLoopCount : Z
}.

(** [type Option func(c *ClientOptions)] *)
Definition Option_ : Type := ClientOptions -> ClientOptions.

(** [NewClient] computes [bufSize] from the default packet size, before the
    options are applied.  [make] panics on a negative size. *)
Definition NewClient (D : Defaults) (addr : bytes) (opts : list Option_)
  : Result World :=
  let o := mkOptions addr (DefaultMetricPrefix D) (DefaultMaxPacketSize D)
             (DefaultFlushInterval D) (DefaultReconnectInterval D)
             (DefaultReportInterval D) (DefaultRetryTimeout D)
             (DefaultBufPoolCapacity D) (DefaultSendQueueCapacity D)
             (DefaultSendLoopCount D) in
  (* 1024 is room for overflow metric *)
  let size := Int64.add (MaxPacketSize o) 1024 in
  let o := fold_left (fun o (option : Option_) => option o) opts o in
  if size <? 0 then Panic "makeslice: cap out of range"
  else if (BufPoolCapacity o <? 0) || (SendQueueCapacity o <? 0)
  then Panic "makechan: size out of range"
  else
    let n := Z.to_nat (SendLoopCount o) in
    let report := ReportInterval o >? 0 in
    Ok (mkWorld
          (mkClient o (makeChan (BufPoolCapacity o)) [] size
                    (makeChan (SendQueueCapacity o)) (makeChan 0)
                    (Z.of_nat n + (if report then 1 else 0)) 0 0)
          true (repeat RECONNECT n) report [] []).

(** ** Events and runs *)

Inductive Call : Type :=
| CallIncr (stat : bytes) (count : Z)
| CallDecr (stat : bytes) (count : Z)
| CallTiming (stat : bytes) (delta : Z)
| CallPrecisionTiming (stat : bytes) (delta : Z)
| CallGauge (stat : bytes) (value : Z)
| CallGaugeDelta (stat : bytes) (value : Z)
| CallFGauge (stat : bytes) (value : float)
| CallFGaugeDelta (stat : bytes) (value : float)
| CallSetAdd (stat : bytes) (value : bytes).

Inductive Event : Type :=
| Emit (k : Call)                    (* a caller emits a metric *)
| Flusher (inp : FlushInput)         (* flushLoop takes a turn *)
| Sender (i : nat) (inp : SendInput) (* the i-th sendLoop takes a step *)
| Reporter (inp : ReportInput)       (* reportLoop takes a turn *)
| CloseCall.                         (* a caller enters Close *)

Fixpoint setWorker (l : list Worker) (i : nat) (st : Worker) : list Worker :=
  match l, i with
  | [], _ => []
  | _ :: l', O => st :: l'
  | x :: l', S i' => x :: setWorker l' i' st
  end.

Section Pipeline.

Variable FormatFloat : float -> bytes.

Definition call (c : Client) (k : Call) : Result Client :=
  match k with
  | CallIncr stat count => Incr c stat count
  | CallDecr stat count => Decr c stat count
  | CallTiming stat delta => Timing c stat delta
  | CallPrecisionTiming stat delta => PrecisionTiming FormatFloat c stat delta
  | CallGauge stat value => Gauge c stat value
  | CallGaugeDelta stat value => GaugeDelta c stat value
  | CallFGauge stat value => FGauge FormatFloat c stat value
  | CallFGaugeDelta stat value => FGaugeDelta FormatFloat c stat value
  | CallSetAdd stat value => SetAdd c stat value
  end.

Definition step (w : World) (e : Event) : Result World :=
  match e with
  | Emit k =>
      c <- call (client w) k ;;
      Ok (with_client w c)
  | Flusher inp => flushLoop w inp
  | Sender i inp =>
      match nth_error (senders w) i with
      | None => Ok w
      | Some st =>
          r <- sendLoop w st inp ;;
          Ok (mkWorld (client (snd r)) (flushLoopRunning (snd r))
                      (setWorker (senders (snd r)) i (fst r))
                      (reportLoopRunning (snd r))
                      (wire (snd r)) (logged (snd r)))
      end
  | Reporter inp => reportLoop w inp
  | CloseCall =>
      c <- Close (client w) ;;
      Ok (with_client w c)
  end.

Fixpoint run (w : World) (es : list Event) : Result World :=
  match es with
  | [] => Ok w
  | e :: es' => w' <- step w e ;; run w' es'
  end.

End Pipeline.

(** ** Lines *)

(** One emission step as every metric method performs it: append the line
    under the lock, then check for overflow at the length before it. *)
Definition emitLine (c : Client) (line : bytes) : Result Client :=
  checkBuf (with_buf c (buf c ++ line)) (len (buf c)).

Fixpoint emitLines (c : Client) (ls : list bytes) : Result Client :=
  match ls with
  | [] => Ok c
  | l :: ls' => c' <- emitLine c l ;; emitLines c' ls'
  end.

(** [<prefix><name>:<value><type-suffix>\n] *)
Definition metricLine (o : ClientOptions) (stat value suffix : bytes) : bytes :=
  MetricPrefix o ++ stat ++ [x3a] ++ value ++ suffix ++ [newline].

Definition gaugeLine (o : ClientOptions) (stat value : bytes) : bytes :=
  metricLine o stat value (B "|g").

(** A buffer that is a concatenation of newline-terminated lines. *)
Definition terminated (bodies : list bytes) : bytes :=
  List.concat (map (fun body => body ++ [newline]) bodies).

Definition wholeLines (b : bytes) : Prop :=
  exists bodies, b = terminated bodies.

(** Lines joined by newlines, with none at the end. *)
Fixpoint joined (bodies : list bytes) : bytes :=
  match bodies with
  | [] => []
  | [body] => body
  | body :: rest => body ++ newline :: joined rest
  end.

Section Lines.

Variable FormatFloat : float -> bytes.

(** The lines a call appends, in order. *)
Definition linesOf (o : ClientOptions) (k : Call) : list bytes :=
  match k with
  | CallIncr stat count =>
      if 0 =? count then []
      else [metricLine o stat (strconv.FormatInt count) (B "|c")]
  | CallDecr stat count =>
      if 0 =? Int64.neg count then []
      else [metricLine o stat (strconv.FormatInt (Int64.neg count)) (B "|c")]
  | CallTiming stat delta =>
      [metricLine o stat (strconv.FormatInt delta) (B "|ms")]
  | CallPrecisionTiming stat delta =>
      [metricLine o stat
         (FormatFloat (PrimFloat.div (float64_of_int64 delta)
                                     (float64_of_int64 time.Millisecond)))
         (B "|ms")]
  | CallGauge stat value =>
      if value <? 0
      then [gaugeLine o stat (B "0");
            gaugeLine o stat (strconv.FormatInt value)]
      else [gaugeLine o stat (strconv.FormatInt value)]
  | CallGaugeDelta stat value =>
      if value <? 0
      then [gaugeLine o stat (strconv.FormatInt value)]
      else [gaugeLine o stat (x2b :: strconv.FormatInt value)]
  | CallFGauge stat value =>
      if PrimFloat.ltb value PrimFloat.zero
      then [gaugeLine o stat (B "0");
            gaugeLine o stat (FormatFloat value)]
      else [gaugeLine o stat (FormatFloat value)]
  | CallFGaugeDelta stat value =>
      if PrimFloat.ltb value PrimFloat.zero
      then [gaugeLine o stat (FormatFloat value)]
      else [gaugeLine o stat (x2b :: FormatFloat value)]
  | CallSetAdd stat value =>
      [metricLine o stat value (B "|s")]
  end.

Definition emitted (o : ClientOptions) (e : Event) : list bytes :=
  match e with
  | Emit k => linesOf o k
  | _ => []
  end.

End Lines.

(** ** Reading decimals back *)

Definition isDigit (b : byte) : Prop :=
  48 <= Z.of_N (Byte.to_N b) <= 57.

Definition decimalFrom (z : Z) (ds : bytes) : Z :=
  fold_left (fun acc b => acc * 10 + (Z.of_N (Byte.to_N b) - 48)) ds z.

(** The number a string of digits denotes. *)
Definition decimalValue (ds : bytes) : Z := decimalFrom 0 ds.


(** Both loss counters are the same in two clients. *)
Definition sameLoss (c c' : Client) : Prop :=
  lostPacketsPeriod c' = lostPacketsPeriod c /\
  lostPacketsOverall c' = lostPacketsOverall c.

(** The invariant of the pipeline, for a property [Pb] of the buffer, [P]
    of the queued packets and [R] of the datagrams written. *)
Definition goodClient (o : ClientOptions) (Pb P : bytes -> Prop)
  (c : Client) : Prop :=
  options c = o /\ Pb (buf c) /\ Forall P (items (sendQueue c)).

Definition goodWorld (o : ClientOptions) (Pb P R : bytes -> Prop)
  (w : World) : Prop :=
  goodClient o Pb P (client w) /\ Forall R (wire w).


(** What an operation on the buffer leaves alone: the closed flags of the
    channels, the wait group and the options. *)
Definition sameControl (c c' : Client) : Prop :=
  closed (bufPool c') = closed (bufPool c) /\
  closed (sendQueue c') = closed (sendQueue c) /\
  shutdown c' = shutdown c /\
  shutdownWg c' = shutdownWg c /\
  options c' = options c.

Definition exited (st : Worker) : bool :=
  match st with
  | EXITED => true
  | _ => false
  end.

(** The number of [sendLoop] goroutines that have not returned. *)
Fixpoint live (l : list Worker) : Z :=
  match l with
  | [] => 0
  | st :: l' => (if exited st then 0 else 1) + live l'
  end.

(** The invariant of the lifecycle: the pool is never closed; the queue is
    closed exactly when [flushLoop] has returned; the wait group counts
    the send loops and the report loop still running; a send loop returns
    only after the queue is closed and drained. *)
Definition controlled (w : World) : Prop :=
  closed (bufPool (client w)) = false /\
  closed (sendQueue (client w)) = negb (flushLoopRunning w) /\
  shutdownWg (client w)
    = live (senders w) + (if reportLoopRunning w then 1 else 0) /\
  (live (senders w) <> len (senders w) ->
   closed (sendQueue (client w)) = true /\
   items (sendQueue (client w)) = []).

(** The pool after [flushBuf] took its new buffer. *)
Definition popPool (p : chan bytes) : chan bytes :=
  match tryRecv p with
  | Received _ p' => p'
  | _ => p
  end.

(** ** Sample values for the examples *)

(** Defaults to run examples with; the claims hold for any. *)
Definition sampleDefaults : Defaults :=
  mkDefaults [] 1432 100000000 0 60000000000 5000000000 20 10 1.

(** Options as the tests use them: [MetricPrefix("foo.")] and
    [MaxPacketSize(n)]. *)
Definition optMetricPrefix (prefix : bytes) : Option_ :=
  fun o => mkOptions (Addr o) prefix (MaxPacketSize o) (FlushInterval o)
             (ReconnectInterval o) (ReportInterval o) (RetryTimeout o)
             (BufPoolCapacity o) (SendQueueCapacity o) (SendLoopCount o).

Definition optMaxPacketSize (n : Z) : Option_ :=
  fun o => mkOptions (Addr o) (MetricPrefix o) n (FlushInterval o)
             (ReconnectInterval o) (ReportInterval o) (RetryTimeout o)
             (BufPoolCapacity o) (SendQueueCapacity o) (SendLoopCount o).

Definition sampleOptions : ClientOptions :=
  mkOptions (B "127.0.0.1:8125") (B "foo.") 1400 100000000 0 60000000000
            5000000000 20 10 1.

(** A client as [NewClient] leaves it, with the prefix ["foo."]. *)
Definition sampleClient : Client :=
  mkClient sampleOptions (makeChan 20) [] 2456 (makeChan 10) (makeChan 0)
           2 0 0.

Definition sampleWorld : World :=
  mkWorld sampleClient true [RECONNECT] true [] [].

(** A client with a small packet size, holding one line, and with no room
    left in its queue of capacity one. *)
Definition tightOptions : ClientOptions :=
  mkOptions (B "127.0.0.1:8125") (B "foo.") 30 100000000 0 60000000000
            5000000000 20 1 1.

Definition countLine : bytes := B "foo.req.count:30|c" ++ [newline].

Definition tightClient : Client :=
  mkClient tightOptions (makeChan 20) countLine 2456 (makeChan 1)
           (makeChan 0) 2 0 0.

Definition fullClient : Client :=
  mkClient tightOptions (makeChan 20) countLine 2456
           (mkChan [countLine] 1 false) (makeChan 0) 2 0 0.

(** A world whose worker is connected and has a packet to send. *)
Definition readyWorld : World :=
  mkWorld fullClient true [READY] true [] [].


(** Events to run examples with: three counters on a client whose packets
    hold one such line, a flush tick, and a worker that connects and
    sends. *)
Definition tightOpts : list Option_ :=
  [optMetricPrefix (B "foo."); optMaxPacketSize 30].

Definition sampleEvents : list Event :=
  [Emit (CallIncr (B "req.count") 30);
   Emit (CallIncr (B "req.count") 30);
   Emit (CallIncr (B "req.count") 30);
   Flusher FlushTick;
   Sender 0 (Dial false);
   Sender 0 (Recv false)].


(** A shutdown: [flushLoop] flushes and closes the queue, the worker
    connects, sends the three packets queued and returns on the fourth
    receive, [reportLoop] returns. *)
Definition shutdownEvents : list Event :=
  [Flusher FlushShutdown;
   Sender 0 (Dial false);
   Sender 0 (Recv false);
   Sender 0 (Recv false);
   Sender 0 (Recv false);
   Sender 0 (Recv false);
   Reporter ReportShutdown].

Definition okOr {A : Type} (d : A) (r : Result A) : A :=
  match r with
  | Ok a => a
  | Panic _ => d
  end.

(** A stand-in for the float formatter in examples. *)
Definition sampleFormat : float -> bytes := fun _ => B "-2.5".

(** The worlds of a short life: a new client, then three counters, then
    [Close] entered, then the shutdown done. *)
Definition world0 : World :=
  okOr sampleWorld (NewClient sampleDefaults (B "127.0.0.1:8125") tightOpts).

Definition world1 : World :=
  okOr sampleWorld (run sampleFormat world0 (firstn 3 sampleEvents)).

Definition world2 : World :=
  okOr sampleWorld (step sampleFormat world1 CloseCall).

Definition world3 : World :=
  okOr sampleWorld (run sampleFormat world2 shutdownEvents).

(** ** The earlier buffers.go *)

(** The revision of [buffers.go] before [checkBuf]: the metric methods
    called [getBuf] before they appended, with an estimate of the line's
    length, and [flushBuf] sent the whole buffer. *)
Module Earlier.

(** [flushBuf] sends the buffer to the queue and then takes a new one from
    the pool, or makes one with the capacity [MaxPacketSize]; [make]
    panics on a negative capacity. *)
Definition flushBuf (c : Client) : Result Client :=
  (* flush current buffer *)
  c <- match trySend (sendQueue c) (buf c) with
       | Sent q => Ok (with_sendQueue c q)
       | WouldBlock =>
           (* flush failed, we lost some data *)
           let c := with_lostPacketsPeriod c
                      (Int64.add (lostPacketsPeriod c) 1) in
           let c := with_lostPacketsOverall c
                      (Int64.add (lostPacketsOverall c) 1) in
           Ok c
       | SendOnClosed => Panic "send on closed channel"
       end ;;
  (* get new buffer *)
  match tryRecv (bufPool c) with
  | Received b pool => Ok (with_buf (with_bufPool c pool) (slice b 0 0))
  | RecvEmpty | RecvClosed =>
      if MaxPacketSize (options c) <? 0
      then Panic "makeslice: cap out of range"
      else Ok (with_buf c [])
  end.


End Earlier.

(** ** The listener of the tests *)

Module strings.

(** [strings.Index(s, sep)] for a separator of one byte: the index of its
    first occurrence in [s], or -1. *)
Fixpoint Index (s : bytes) (sep : byte) : Z :=
  match s with
  | [] => -1
  | x :: s' =>
      if Byte.eqb x sep then 0
      else let i := Index s' sep in if i =? -1 then -1 else i + 1
  end.

(** [strings.Split(s, sep)] for a separator of one byte: the substrings
    between the separators; one substring, [s], when there is none. *)
Fixpoint Split (s : bytes) (sep : byte) : list bytes :=
  match s with
  | [] => [[]]
  | x :: s' =>
      if Byte.eqb x sep then [] :: Split s' sep
      else match Split s' sep with
           | part :: parts => (x :: part) :: parts
           | [] => [[x]]
           end
  end.

End strings.

Definition isDigitb (b : byte) : bool :=
  (48 <=? Z.of_N (Byte.to_N b)) && (Z.of_N (Byte.to_N b) <=? 57).

(** [strconv.ParseInt(s, 10, 64)]: an optional sign and decimal digits;
    [None] stands for its errors, of syntax (no digit, or a byte that is
    none) and of range. *)
Definition ParseInt (s : bytes) : option Z :=
  match s with
  | [] => None
  | c :: rest =>
      let neg := Byte.eqb c x2d in
      let ds := if Byte.eqb c x2b || Byte.eqb c x2d then rest else s in
      match ds with
      | [] => None
      | _ :: _ =>
          if forallb isDigitb ds then
            let un := decimalValue ds in
            if 2 ^ 64 <=? un then None
            else if negb neg && (2 ^ 63 <=? un) then None
            else if neg && (2 ^ 63 <? un) then None
            else Some (if neg then - un else un)
          else None
      end
  end.

(** The body of the loop over the parts of a datagram in the listener of
    [TestConcurrent]: a part with no [:] or no [|] is skipped, and so is
    one whose text between them is no [int64]; the count of another is
    added to [totalReceived].  The slice expression panics when the [|]
    comes before the [:]. *)
Definition receivePart (totalReceived : Z) (part : bytes) : Result Z :=
  let i1 := strings.Index part x3a in
  let i2 := strings.Index part x7c in
  if (i1 =? -1) || (i2 =? -1) then Ok totalReceived
  else if i2 <? i1 + 1 then Panic "slice bounds out of range"
  else
    match ParseInt (slice part (i1 + 1) i2) with
    | None => Ok totalReceived
    | Some count => Ok (Int64.add totalReceived count)
    end.

Fixpoint receiveParts (totalReceived : Z) (parts : list bytes) : Result Z :=
  match parts with
  | [] => Ok totalReceived
  | part :: parts' =>
      t <- receivePart totalReceived part ;; receiveParts t parts'
  end.

(** The reader of [setupListener] reads a datagram into a buffer of 1500
    bytes and passes on what was read: the first 1500 bytes of it. *)
Definition listenerRead (datagram : bytes) : bytes := firstn 1500 datagram.

(** The listener on the datagrams it is given, in order. *)
Fixpoint receiveAll (totalReceived : Z) (bufs : list bytes) : Result Z :=
  match bufs with
  | [] => Ok totalReceived
  | buf :: bufs' =>
      t <- receiveParts totalReceived (strings.Split buf newline) ;;
      receiveAll t bufs'
  end.

(** What the producers of [TestConcurrent] add to [totalSent]: the count
    of every [Incr]. *)
Definition sentBy (totalSent : Z) (e : Event) : Z :=
  match e with
  | Emit (CallIncr _ count) => Int64.add totalSent count
  | _ => totalSent
  end.

Definition totalSent (es : list Event) : Z := fold_left sentBy es 0.

(** A text with none of the bytes that delimit a line and its value. *)
Definition plain (s : bytes) : Prop :=
  ~ In x3a s /\ ~ In x7c s /\ ~ In newline s.

(** An event of the test: a counter with a plain name, or a step of a
    background loop other than a write that fails. *)
Definition testEvent (e : Event) : Prop :=
  match e with
  | Emit (CallIncr stat count) => plain stat /\ Int64.in_range count
  | Emit _ => False
  | Sender _ (Recv true) => False
  | _ => True
  end.

(** The line of a counter without its newline. *)
Definition counterBody (o : ClientOptions) (stat : bytes) (count : Z)
  : bytes :=
  MetricPrefix o ++ stat ++ [x3a] ++ strconv.FormatInt count ++ B "|c".

Definition bodiesOf (o : ClientOptions) (e : Event) : list bytes :=
  match e with
  | Emit (CallIncr stat count) =>
      if 0 =? count then [] else [counterBody o stat count]
  | _ => []
  end.

(** ** What the pipeline holds *)

(** What the pipeline holds: the datagrams written, each with the newline
    that was cut off, then the queued packets, then the buffer. *)
Definition content (w : World) : bytes :=
  terminated (wire w) ++ List.concat (items (sendQueue (client w)))
  ++ buf (client w).

(** The invariant that buffer and packets are whole lines. *)
Definition lineWorld (o : ClientOptions) (w : World) : Prop :=
  goodWorld o wholeLines wholeLines (fun _ => True) w.




(** Queue and pool have the capacities [q] and [p] and hold no more. *)
Definition bounded (q p : Z) (c : Client) : Prop :=
  capacity (sendQueue c) = q /\ len (items (sendQueue c)) <= q /\
  capacity (bufPool c) = p /\ len (items (bufPool c)) <= p.

(** ** Loss reports *)



(** ** Workers and the shutdown *)

(** A send loop that has no socket: at [RECONNECT] or at [WAIT]. *)
Definition unconnected (st : Worker) : Prop := st = RECONNECT \/ st = WAIT.

(** The steps that take the [i]-th send loop to its return once the queue
    is closed, with at most [n] packets left in it: the sleep ends, the
    dial succeeds, and the loop receives [n + 1] times. *)
Definition drainWorker (n : nat) (i : nat) : list Event :=
  Sender i Slept :: Sender i (Dial false) ::
  repeat (Sender i (Recv false)) (S n).

(** A schedule of the shutdown for a client with [workers] send loops and
    at most [n] packets to send: [flushLoop] and [reportLoop] take the
    shutdown case, then the send loops drain the queue one after the
    other. *)
Definition shutdownSchedule (workers n : nat) : list Event :=
  Flusher FlushShutdown :: Reporter ReportShutdown ::
  flat_map (drainWorker n) (seq 0 workers).

(** The state in which the send loops drain the queue: [flushLoop] and
    [reportLoop] have returned and at most [n] packets are queued. *)
Definition draining (n : nat) (w : World) : Prop :=
  controlled w /\ flushLoopRunning w = false /\
  reportLoopRunning w = false /\
  (List.length (items (sendQueue (client w))) <= n)%nat.

(** ** Type suffixes *)

(** The type suffixes of the metric lines. *)
Definition typeSuffix (s : bytes) : Prop :=
  s = B "|c" \/ s = B "|ms" \/ s = B "|g" \/ s = B "|s".

(** A text that ends in a type suffix. *)
Definition suffixed (d : bytes) : Prop :=
  exists front s, d = front ++ s /\ typeSuffix s.

(** Whole lines, each ending in a type suffix before its newline. *)
Definition suffixedLines (b : bytes) : Prop :=
  exists bodies, b = terminated bodies /\ Forall suffixed bodies.

(** ** Further sample values *)

Definition optSendQueueCapacity (n : Z) : Option_ :=
  fun o => mkOptions (Addr o) (MetricPrefix o) (MaxPacketSize o)
             (FlushInterval o) (ReconnectInterval o) (ReportInterval o)
             (RetryTimeout o) (BufPoolCapacity o) n (SendLoopCount o).

Definition sampleTicks : list Event :=
  [Flusher FlushTick; Sender 0 (Dial false); Sender 0 (Recv false);
   Reporter ReportTick; Emit (CallTiming (B "req.duration") 100)].

Definition lifeEvents : list Event :=
  firstn 3 sampleEvents ++ CloseCall :: shutdownEvents.

Definition closeEvents : list Event := firstn 3 sampleEvents ++ [CloseCall].

(** Five counters on a client whose queue holds one packet and whose
    worker never connects, with a report after the fourth. *)
Definition lossyEvents : list Event :=
  [Emit (CallIncr (B "req.count") 30);
   Emit (CallIncr (B "req.count") 30);
   Emit (CallIncr (B "req.count") 30);
   Emit (CallIncr (B "req.count") 30);
   Reporter ReportTick;
   Emit (CallIncr (B "req.count") 30)].

Definition narrowOpts : list Option_ :=
  [optMetricPrefix (B "foo."); optMaxPacketSize 30; optSendQueueCapacity 1].

Definition narrow0 : World :=
  okOr sampleWorld (NewClient sampleDefaults (B "127.0.0.1:8125") narrowOpts).

(** A client is closed while its server cannot be reached. *)
Definition strandedEvents : list Event :=
  [Emit (CallIncr (B "req.count") 30);
   Sender 0 (Dial true);
   CloseCall;
   Flusher FlushShutdown;
   Reporter ReportShutdown;
   Sender 0 Slept;
   Sender 0 (Dial true);
   Sender 0 (Recv false);
   Sender 0 Slept].



(** Counters from two producers, sent and received. *)
Definition concurrentEvents : list Event :=
  [Sender 0 (Dial false);
   Emit (CallIncr (B "some.counter") 7);
   Emit (CallIncr (B "some.counter") 0);
   Emit (CallIncr (B "some.counter") (-3));
   Emit (CallIncr (B "some.counter") 1024);
   Sender 0 (Recv false);
   Flusher FlushTick;
   Sender 0 (Recv false);
   Sender 0 (Recv false)].




(** ** Tactics *)

Ltac line_eq :=
  unfold emitLine, gaugeLine, metricLine, strconv.AppendInt, AppendFloat;
  cbn [buf with_buf options bufPool bufSize sendQueue shutdown shutdownWg
       lostPacketsPeriod lostPacketsOverall];
  repeat rewrite <- app_assoc; reflexivity.

Ltac break_match :=
  match goal with
  | H : context [match ?x with _ => _ end] |- _ => destruct x eqn:?
  | |- context [match ?x with _ => _ end] => destruct x eqn:?
  end.

Ltac inv_ok :=
  repeat match goal with
  | H : Ok _ = Ok _ |- _ => inversion H; clear H; subst
  | H : Panic _ = Ok _ |- _ => discriminate H
  | H : (_, _) = (_, _) |- _ => inversion H; clear H; subst
  end.

(** ** Basic facts *)

Lemma len_app {A : Type} (a b : list A) : len (a ++ b) = len a + len b.
Proof. unfold len. rewrite length_app. lia. Qed.

Lemma len_nonneg {A : Type} (a : list A) : 0 <= len a.
Proof. unfold len. lia. Qed.

Lemma len_nil {A : Type} : len (@nil A) = 0.
Proof. reflexivity. Qed.

Lemma len_zero_nil {A : Type} (a : list A) : len a <= 0 -> a = [].
Proof. destruct a; [reflexivity | unfold len; simpl; lia]. Qed.

Lemma slice_prefix (a b : bytes) : slice (a ++ b) 0 (len a) = a.
Proof.
  unfold slice, len. simpl. rewrite Z.sub_0_r, Nat2Z.id.
  rewrite firstn_app, Nat.sub_diag, firstn_all. simpl. apply app_nil_r.
Qed.

Lemma slice_suffix (a b : bytes) : slice (a ++ b) (len a) (len (a ++ b)) = b.
Proof.
  unfold slice. rewrite len_app.
  replace (len a + len b - len a) with (len b) by lia.
  unfold len. rewrite !Nat2Z.id, skipn_app, Nat.sub_diag, skipn_all. simpl.
  apply firstn_all.
Qed.

Lemma slice_whole (a : bytes) : slice a 0 (len a) = a.
Proof. rewrite <- (app_nil_r a) at 1. apply slice_prefix. Qed.

Lemma slice_empty_tail (a : bytes) : slice a (len a) (len a) = [].
Proof. unfold slice. rewrite Z.sub_diag. reflexivity. Qed.

Lemma slice_removelast (a : bytes) : slice a 0 (len a - 1) = removelast a.
Proof.
  unfold slice, len. simpl skipn.
  replace (Z.to_nat (Z.of_nat (List.length a) - 1 - 0))
    with (Nat.pred (List.length a)) by lia.
  induction a as [|x a IH]; [reflexivity|].
  destruct a as [|y a]; [reflexivity|].
  simpl in *. f_equal. exact IH.
Qed.

(** [flushBuf] within bounds, by the outcome of the send. *)
Lemma flushBuf_cases (c : Client) (pre tail : bytes) :
  buf c = pre ++ tail ->
  flushBuf c (len pre) =
  match trySend (sendQueue c) pre with
  | Sent q =>
      Ok (mkClient (options c) (popPool (bufPool c)) tail (bufSize c) q
                   (shutdown c) (shutdownWg c)
                   (lostPacketsPeriod c) (lostPacketsOverall c))
  | WouldBlock =>
      Ok (mkClient (options c) (popPool (bufPool c)) tail (bufSize c)
                   (sendQueue c) (shutdown c) (shutdownWg c)
                   (Int64.add (lostPacketsPeriod c) 1)
                   (Int64.add (lostPacketsOverall c) 1))
  | SendOnClosed => Panic "send on closed channel"
  end.
Proof.
  intros Hb. unfold flushBuf. rewrite Hb.
  assert (Hlo : (len pre <? 0) = false) by (pose proof (len_nonneg pre); lia).
  assert (Hhi : (len (pre ++ tail) <? len pre) = false)
    by (rewrite len_app; pose proof (len_nonneg tail); lia).
  rewrite Hlo, Hhi. simpl orb. cbv iota.
  rewrite slice_prefix, slice_suffix.
  unfold popPool.
  destruct (tryRecv (bufPool c)) as [b p| |]; simpl;
    destruct (trySend (sendQueue c) pre); reflexivity.
Qed.

Lemma emitLine_fits (c : Client) (line : bytes) :
  len (buf c) + len line <= MaxPacketSize (options c) ->
  emitLine c line = Ok (with_buf c (buf c ++ line)).
Proof.
  intros H. unfold emitLine, checkBuf. simpl.
  rewrite len_app.
  destruct (len (buf c) + len line >? MaxPacketSize (options c)) eqn:E;
    [lia | reflexivity].
Qed.

Lemma emitLine_overflow (c : Client) (line : bytes) :
  len (buf c) + len line > MaxPacketSize (options c) ->
  emitLine c line =
  match trySend (sendQueue c) (buf c) with
  | Sent q =>
      Ok (mkClient (options c) (popPool (bufPool c)) line (bufSize c) q
                   (shutdown c) (shutdownWg c)
                   (lostPacketsPeriod c) (lostPacketsOverall c))
  | WouldBlock =>
      Ok (mkClient (options c) (popPool (bufPool c)) line (bufSize c)
                   (sendQueue c) (shutdown c) (shutdownWg c)
                   (Int64.add (lostPacketsPeriod c) 1)
                   (Int64.add (lostPacketsOverall c) 1))
  | SendOnClosed => Panic "send on closed channel"
  end.
Proof.
  intros H. unfold emitLine, checkBuf. simpl.
  rewrite len_app.
  destruct (len (buf c) + len line >? MaxPacketSize (options c)) eqn:E;
    [|lia].
  rewrite (flushBuf_cases (with_buf c (buf c ++ line)) (buf c) line);
    reflexivity.
Qed.

(** ** Every metric method is a sequence of line emissions *)

Lemma Incr_emit (c : Client) (stat : bytes) (count : Z) :
  count <> 0 ->
  Incr c stat count =
  emitLine c (metricLine (options c) stat (strconv.FormatInt count) (B "|c")).
Proof.
  intros H. unfold Incr.
  destruct (0 =? count) eqn:E; [lia|]. simpl negb. cbv iota. line_eq.
Qed.

Lemma Timing_emit (c : Client) (stat : bytes) (delta : Z) :
  Timing c stat delta =
  emitLine c (metricLine (options c) stat (strconv.FormatInt delta) (B "|ms")).
Proof. unfold Timing. line_eq. Qed.

Lemma igauge_emit (c : Client) (stat sign : bytes) (value : Z) :
  igauge c stat sign value =
  emitLine c (gaugeLine (options c) stat (sign ++ strconv.FormatInt value)).
Proof. unfold igauge. line_eq. Qed.

Lemma SetAdd_emit (c : Client) (stat value : bytes) :
  SetAdd c stat value =
  emitLine c (metricLine (options c) stat value (B "|s")).
Proof. unfold SetAdd. line_eq. Qed.

Lemma PrecisionTiming_emit F (c : Client) (stat : bytes) (delta : Z) :
  PrecisionTiming F c stat delta =
  emitLine c (metricLine (options c) stat
                (F (PrimFloat.div (float64_of_int64 delta)
                                  (float64_of_int64 time.Millisecond)))
                (B "|ms")).
Proof. unfold PrecisionTiming. line_eq. Qed.

Lemma fgauge_emit F (c : Client) (stat sign : bytes) (value : float) :
  fgauge F c stat sign value =
  emitLine c (gaugeLine (options c) stat (sign ++ F value)).
Proof. unfold fgauge. line_eq. Qed.

Lemma FormatInt_zero : strconv.FormatInt 0 = B "0".
Proof. reflexivity. Qed.

Lemma flushBuf_options (c c' : Client) (n : Z) :
  flushBuf c n = Ok c' -> options c' = options c.
Proof.
  unfold flushBuf.
  destruct ((n <? 0) || (len (buf c) <? n)); [discriminate|].
  destruct (tryRecv (bufPool c)); cbn;
    match goal with |- context [trySend ?q ?b] => destruct (trySend q b) end;
    intros H; inversion H; reflexivity.
Qed.

Lemma emitLine_options (c c' : Client) (line : bytes) :
  emitLine c line = Ok c' -> options c' = options c.
Proof.
  unfold emitLine, checkBuf.
  match goal with |- context [if ?b then _ else _] => destruct b end.
  - intros H. apply flushBuf_options in H. exact H.
  - intros H. inversion H. reflexivity.
Qed.

Lemma emitLines_options (ls : list bytes) (c c' : Client) :
  emitLines c ls = Ok c' -> options c' = options c.
Proof.
  revert c. induction ls as [|l ls IH]; intros c H; simpl in H.
  - inversion H. reflexivity.
  - destruct (emitLine c l) as [c1|m] eqn:E; [|discriminate]. simpl in H.
    rewrite (IH _ H). eapply emitLine_options; eassumption.
Qed.

Lemma bind_ext {A B : Type} (r : Result A) (f g : A -> Result B) :
  (forall a, r = Ok a -> f a = g a) -> bind r f = bind r g.
Proof. intros H. destruct r; simpl; auto. Qed.

Lemma bind_ok {A : Type} (r : Result A) : bind r (fun a => Ok a) = r.
Proof. destruct r; reflexivity. Qed.

Lemma emitLines_one (c : Client) (l : bytes) :
  emitLines c [l] = emitLine c l.
Proof. simpl. apply bind_ok. Qed.

Lemma call_emitLines F (c : Client) (k : Call) :
  call F c k = emitLines c (linesOf F (options c) k).
Proof.
  destruct k as [stat n|stat n|stat n|stat n|stat v|stat v|stat v|stat v|stat v];
    cbn [call linesOf].
  - destruct (0 =? n) eqn:E.
    + unfold Incr. rewrite E. reflexivity.
    + rewrite emitLines_one. apply Incr_emit. lia.
  - unfold Decr. destruct (0 =? Int64.neg n) eqn:E.
    + unfold Incr. rewrite E. reflexivity.
    + rewrite emitLines_one. apply Incr_emit. lia.
  - rewrite emitLines_one. apply Timing_emit.
  - rewrite emitLines_one. apply PrecisionTiming_emit.
  - unfold Gauge. destruct (v <? 0).
    + cbn [emitLines]. rewrite igauge_emit. cbn [app]. rewrite FormatInt_zero.
      apply bind_ext. intros c1 H1. rewrite igauge_emit.
      rewrite (emitLine_options _ _ _ H1). cbn [app]. symmetry. apply bind_ok.
    + cbn [bind]. rewrite emitLines_one. apply igauge_emit.
  - unfold GaugeDelta. destruct (v <? 0);
      rewrite emitLines_one; apply igauge_emit.
  - unfold FGauge. destruct (PrimFloat.ltb v PrimFloat.zero).
    + cbn [emitLines]. rewrite igauge_emit. cbn [app]. rewrite FormatInt_zero.
      apply bind_ext. intros c1 H1. rewrite fgauge_emit.
      rewrite (emitLine_options _ _ _ H1). cbn [app]. symmetry. apply bind_ok.
    + cbn [bind]. rewrite emitLines_one. apply fgauge_emit.
  - unfold FGaugeDelta. destruct (PrimFloat.ltb v PrimFloat.zero);
      rewrite emitLines_one; apply fgauge_emit.
  - rewrite emitLines_one. apply SetAdd_emit.
Qed.

(** ** Decimal formatting *)

Lemma digit_value (d : Z) :
  0 <= d <= 9 -> Z.of_N (Byte.to_N (strconv.digit d)) = 48 + d.
Proof.
  intros H.
  assert (E : d = 0 \/ d = 1 \/ d = 2 \/ d = 3 \/ d = 4 \/
              d = 5 \/ d = 6 \/ d = 7 \/ d = 8 \/ d = 9) by lia.
  repeat (destruct E as [E|E]; [subst d; reflexivity|]).
  subst d. reflexivity.
Qed.

Lemma formatBits_digits (fuel : nat) (u : Z) (acc : bytes) :
  0 <= u -> Forall isDigit acc ->
  Forall isDigit (strconv.formatBits fuel u acc).
Proof.
  revert u acc. induction fuel as [|fuel IH]; intros u acc Hu Hacc; simpl.
  - exact Hacc.
  - destruct (10 <=? u) eqn:E.
    + apply IH.
      * apply Z.div_pos; lia.
      * constructor; [|exact Hacc].
        pose proof (Z.mod_pos_bound u 10 ltac:(lia)).
        unfold isDigit. rewrite digit_value; lia.
    + constructor; [|exact Hacc].
      unfold isDigit. rewrite digit_value; lia.
Qed.

Lemma formatBits_value (fuel : nat) (u : Z) (acc : bytes) :
  0 <= u < 10 ^ Z.of_nat fuel ->
  decimalFrom 0 (strconv.formatBits fuel u acc) = decimalFrom u acc.
Proof.
  revert u acc. induction fuel as [|fuel IH]; intros u acc Hu.
  - simpl in *. replace u with 0 by lia. reflexivity.
  - cbn [strconv.formatBits]. destruct (10 <=? u) eqn:E.
    + rewrite IH.
      * unfold decimalFrom. cbn [fold_left]. rewrite digit_value.
        -- f_equal. pose proof (Z.div_mod u 10). lia.
        -- pose proof (Z.mod_pos_bound u 10). lia.
      * split; [apply Z.div_pos; lia|].
        apply Z.div_lt_upper_bound; [lia|].
        rewrite Nat2Z.inj_succ, Z.pow_succ_r in Hu; lia.
    + unfold decimalFrom. cbn [fold_left]. rewrite digit_value; [|lia].
      f_equal. lia.
Qed.

(** [FormatInt] writes a minus sign for a negative number and nothing for
    another, and then the digits of the magnitude. *)
Lemma FormatInt_decimal (v : Z) :
  Int64.in_range v ->
  exists ds,
    Forall isDigit ds /\ decimalValue ds = Z.abs v /\
    strconv.FormatInt v = if v <? 0 then x2d :: ds else ds.
Proof.
  unfold Int64.in_range, Int64.min_int, Int64.max_int. intros H.
  unfold strconv.FormatInt. destruct (v <? 0) eqn:E.
  - exists (strconv.formatBits 20 ((- v) mod 2 ^ 64) []).
    rewrite Z.mod_small by lia.
    split; [apply formatBits_digits; [lia|constructor]|].
    split; [|reflexivity].
    unfold decimalValue. rewrite formatBits_value; [simpl; lia|].
    change (Z.of_nat 20) with 20. lia.
  - exists (strconv.formatBits 20 v []).
    split; [apply formatBits_digits; [lia|constructor]|].
    split; [|reflexivity].
    unfold decimalValue. rewrite formatBits_value; [simpl; lia|].
    change (Z.of_nat 20) with 20. lia.
Qed.

Lemma emitLines_fits (ls : list bytes) (c : Client) :
  len (buf c) + len (List.concat ls) <= MaxPacketSize (options c) ->
  emitLines c ls = Ok (with_buf c (buf c ++ List.concat ls)).
Proof.
  revert c. induction ls as [|l ls IH]; intros c H.
  - simpl. rewrite app_nil_r. destruct c; reflexivity.
  - cbn [emitLines List.concat] in *. rewrite len_app in H.
    pose proof (len_nonneg (List.concat ls)).
    rewrite emitLine_fits by lia. cbn [bind].
    rewrite IH.
    + cbn [buf with_buf]. rewrite <- app_assoc. reflexivity.
    + cbn [buf with_buf options]. rewrite len_app. lia.
Qed.

(** ** Zero increments *)

(** C9: [Incr(stat, 0)] and [Decr(stat, 0)] append no line and return the
    client as it was: buffer, pool, queue and both loss counters; as an
    event, the call leaves the whole world unchanged. *)
Theorem zero_increment_is_noop (F : float -> bytes) (w : World)
  (c : Client) (stat : bytes) :
  Incr c stat 0 = Ok c /\ Decr c stat 0 = Ok c /\
  step F w (Emit (CallIncr stat 0)) = Ok w /\
  step F w (Emit (CallDecr stat 0)) = Ok w.
Proof.
  repeat split; try reflexivity; destruct w; reflexivity.
Qed.

(** ** Gauges *)



(** The test of the repository: [Gauge("req.clients", -533)] on the client
    with prefix ["foo."]. *)
Example Gauge_minus_533 :
  exists c,
    Gauge sampleClient (B "req.clients") (-533) = Ok c /\
    buf c = B "foo.req.clients:0|g" ++ [newline] ++
            B "foo.req.clients:-533|g" ++ [newline].
Proof. vm_compute. eexists. split; reflexivity. Qed.



Example GaugeDelta_33_then_minus_533 :
  exists c,
    (c1 <- GaugeDelta sampleClient (B "req.clients") 33 ;;
     GaugeDelta c1 (B "req.clients") (-533)) = Ok c /\
    buf c = B "foo.req.clients:+33|g" ++ [newline] ++
            B "foo.req.clients:-533|g" ++ [newline].
Proof. vm_compute. eexists. split; reflexivity. Qed.

(** ** Sending without blocking *)

Lemma trySend_room {A : Type} (ch : chan A) (v : A) :
  closed ch = false -> len (items ch) < capacity ch ->
  trySend ch v = Sent (mkChan (items ch ++ [v]) (capacity ch) false).
Proof.
  intros Hc Hr. unfold trySend. rewrite Hc.
  destruct (len (items ch) <? capacity ch) eqn:E; [reflexivity | lia].
Qed.

Lemma trySend_full {A : Type} (ch : chan A) (v : A) :
  closed ch = false -> full ch -> trySend ch v = WouldBlock.
Proof.
  unfold full. intros Hc Hf. unfold trySend. rewrite Hc.
  destruct (len (items ch) <? capacity ch) eqn:E; [lia | reflexivity].
Qed.

Lemma flushWhole_cases (c : Client) :
  buf c <> [] ->
  flushWhole c =
  match trySend (sendQueue c) (buf c) with
  | Sent q =>
      Ok (mkClient (options c) (popPool (bufPool c)) [] (bufSize c) q
                   (shutdown c) (shutdownWg c)
                   (lostPacketsPeriod c) (lostPacketsOverall c))
  | WouldBlock =>
      Ok (mkClient (options c) (popPool (bufPool c)) [] (bufSize c)
                   (sendQueue c) (shutdown c) (shutdownWg c)
                   (Int64.add (lostPacketsPeriod c) 1)
                   (Int64.add (lostPacketsOverall c) 1))
  | SendOnClosed => Panic "send on closed channel"
  end.
Proof.
  intros H. unfold flushWhole.
  destruct (len (buf c) >? 0) eqn:E.
  - apply flushBuf_cases. symmetry. apply app_nil_r.
  - exfalso. apply H. apply len_zero_nil. lia.
Qed.

Lemma flushWhole_empty (c : Client) : buf c = [] -> flushWhole c = Ok c.
Proof. intros H. unfold flushWhole. rewrite H. reflexivity. Qed.

(** ** The split on overflow *)

(** C2: when appending a line takes the buffer over the maximum packet
    size, the packet offered to the queue is the buffer as it was before
    the append, and the line, whole, is all the new buffer holds.  Lines
    that follow without overflow are appended behind it, so the next
    packet, cut by a later overflow or by a flush of the whole buffer,
    starts with that line. *)
Theorem overflow_splits_before_last_line (c : Client) (line : bytes) :
  closed (sendQueue c) = false ->
  line <> [] ->
  len (buf c) + len line > MaxPacketSize (options c) ->
  exists c1,
    emitLine c line = Ok c1 /\
    buf c1 = line /\
    closed (sendQueue c1) = false /\
    (len (items (sendQueue c)) < capacity (sendQueue c) ->
     items (sendQueue c1) = items (sendQueue c) ++ [buf c] /\
     lostPacketsOverall c1 = lostPacketsOverall c) /\
    (full (sendQueue c) ->
     items (sendQueue c1) = items (sendQueue c)) /\
    forall later : list bytes,
      later = [] \/
      len line + len (List.concat later) <= MaxPacketSize (options c) ->
      exists c2,
        emitLines c1 later = Ok c2 /\
        buf c2 = line ++ List.concat later /\
        sendQueue c2 = sendQueue c1 /\
        (len (items (sendQueue c1)) < capacity (sendQueue c1) ->
         (exists c3,
            flushWhole c2 = Ok c3 /\
            items (sendQueue c3) =
              items (sendQueue c1) ++ [line ++ List.concat later]) /\
         (forall l,
            len (buf c2) + len l > MaxPacketSize (options c) ->
            exists c3,
              emitLine c2 l = Ok c3 /\
              items (sendQueue c3) =
                items (sendQueue c1) ++ [line ++ List.concat later] /\
              buf c3 = l)).
Proof.
  intros Hopen Hline Hover.
  pose proof (emitLine_overflow c line Hover) as E.
  assert (Hstep : exists c1,
    emitLine c line = Ok c1 /\ buf c1 = line /\
    closed (sendQueue c1) = false /\ options c1 = options c /\
    (len (items (sendQueue c)) < capacity (sendQueue c) ->
     items (sendQueue c1) = items (sendQueue c) ++ [buf c] /\
     lostPacketsOverall c1 = lostPacketsOverall c) /\
    (full (sendQueue c) -> items (sendQueue c1) = items (sendQueue c))).
  { destruct (Z_lt_le_dec (len (items (sendQueue c))) (capacity (sendQueue c)))
      as [Hroom|Hfull].
    - rewrite trySend_room in E by assumption.
      eexists. split; [exact E|]. cbn.
      repeat split; auto; unfold full in *; intros; lia.
    - rewrite trySend_full in E by assumption.
      eexists. split; [exact E|]. cbn.
      repeat split; auto; unfold full in *; intros; lia. }
  destruct Hstep as (c1 & E1 & Hb1 & Hopen1 & Hopt1 & Hroom1 & Hfull1).
  exists c1. repeat (split; [assumption|]).
  intros later Hlater.
  assert (E2 : emitLines c1 later = Ok (with_buf c1 (line ++ List.concat later))).
  { destruct Hlater as [->|Hfit].
    - simpl. rewrite app_nil_r, <- Hb1. destruct c1; reflexivity.
    - rewrite emitLines_fits; rewrite Hb1, ?Hopt1; [reflexivity | exact Hfit]. }
  eexists. split; [exact E2|]. cbn [buf with_buf sendQueue].
  split; [reflexivity|]. split; [reflexivity|].
  intros Hroom. split.
  - rewrite flushWhole_cases.
    + cbn [buf with_buf sendQueue]. rewrite trySend_room by assumption.
      eexists. split; reflexivity.
    + cbn [buf with_buf]. intros H. apply app_eq_nil in H. tauto.
  - intros l Hl. rewrite emitLine_overflow.
    + cbn [buf with_buf sendQueue]. rewrite trySend_room by assumption.
      eexists. repeat split; reflexivity.
    + cbn [buf with_buf options] in *. rewrite Hopt1. exact Hl.
Qed.

Lemma overflow_splits_before_last_line_witness :
  closed (sendQueue tightClient) = false /\
  countLine <> [] /\
  len (buf tightClient) + len countLine > MaxPacketSize (options tightClient) /\
  exists c1,
    emitLine tightClient countLine = Ok c1 /\
    buf c1 = countLine /\
    items (sendQueue c1) = [countLine].
Proof.
  assert (H1 : closed (sendQueue tightClient) = false) by reflexivity.
  assert (H2 : countLine <> []) by discriminate.
  assert (H3 : len (buf tightClient) + len countLine
               > MaxPacketSize (options tightClient)) by reflexivity.
  repeat (split; [assumption|]).
  destruct (overflow_splits_before_last_line tightClient countLine H1 H2 H3)
    as (c1 & E & Hb & _ & Hroom & _).
  exists c1. repeat (split; [assumption|]).
  apply Hroom. reflexivity.
Defined.

(** ** Loss on a full queue *)

Lemma Int64_add_1 (x : Z) :
  Int64.min_int <= x < Int64.max_int -> Int64.add x 1 = x + 1.
Proof.
  unfold Int64.add, Int64.wrap, Int64.min_int, Int64.max_int. intros H.
  rewrite Z.mod_small; lia.
Qed.

Lemma slice_from (b : bytes) (n : Z) :
  0 <= n <= len b ->
  b = firstn (Z.to_nat n) b ++ slice b n (len b) /\
  len (firstn (Z.to_nat n) b) = n.
Proof.
  unfold slice, len. intros H. split.
  - assert (E : firstn (Z.to_nat (Z.of_nat (List.length b) - n))
                       (skipn (Z.to_nat n) b) = skipn (Z.to_nat n) b)
      by (apply firstn_all2; rewrite length_skipn; lia).
    rewrite E. symmetry. apply firstn_skipn.
  - rewrite length_firstn. lia.
Qed.

Lemma emitLine_total (c : Client) (line : bytes) :
  closed (sendQueue c) = false ->
  exists c', emitLine c line = Ok c' /\ closed (sendQueue c') = false.
Proof.
  intros Hopen.
  destruct (Z_le_gt_dec (len (buf c) + len line) (MaxPacketSize (options c)))
    as [Hfit|Hover].
  - rewrite emitLine_fits by assumption. eexists. split; [reflexivity|].
    exact Hopen.
  - rewrite emitLine_overflow by assumption.
    unfold trySend. rewrite Hopen.
    destruct (len (items (sendQueue c)) <? capacity (sendQueue c));
      eexists; (split; [reflexivity|]); cbn; auto.
Qed.

Lemma emitLines_total (ls : list bytes) (c : Client) :
  closed (sendQueue c) = false ->
  exists c', emitLines c ls = Ok c' /\ closed (sendQueue c') = false.
Proof.
  revert c. induction ls as [|l ls IH]; intros c Hopen.
  - exists c. split; [reflexivity | assumption].
  - destruct (emitLine_total c l Hopen) as (c1 & E1 & H1).
    destruct (IH c1 H1) as (c2 & E2 & H2).
    exists c2. split; [|assumption]. simpl. rewrite E1. exact E2.
Qed.



(** ** Who changes the loss counters *)


Lemma sameLoss_refl (c : Client) : sameLoss c c.
Proof. split; reflexivity. Qed.

Lemma sameLoss_trans (a b c : Client) :
  sameLoss a b -> sameLoss b c -> sameLoss a c.
Proof. unfold sameLoss. intros [? ?] [? ?]. split; congruence. Qed.

(** [flushBuf] touches the counters only when the queue is full, and then
    the queue stays as it is. *)
Lemma flushBuf_loss (c c' : Client) (n : Z) :
  flushBuf c n = Ok c' ->
  sameLoss c c' \/
  (full (sendQueue c) /\ sendQueue c' = sendQueue c).
Proof.
  unfold flushBuf, full. intros H.
  destruct ((n <? 0) || (len (buf c) <? n)); [discriminate|].
  destruct (tryRecv (bufPool c)) as [b p| |]; cbn in H;
    unfold trySend in H; cbn in H;
    destruct (closed (sendQueue c)); try discriminate;
    (destruct (len (items (sendQueue c)) <? capacity (sendQueue c)) eqn:E;
      inv_ok; cbn;
      [left; split; reflexivity | right; split; [lia | reflexivity]]).
Qed.

Lemma emitLine_loss (c c' : Client) (line : bytes) :
  emitLine c line = Ok c' ->
  sameLoss c c' \/
  (full (sendQueue c) /\ sendQueue c' = sendQueue c).
Proof.
  unfold emitLine, checkBuf. intros H. break_match.
  - apply flushBuf_loss in H. exact H.
  - inv_ok. left. split; reflexivity.
Qed.

Lemma flushBuf_queue_full (c c' : Client) (n : Z) :
  flushBuf c n = Ok c' -> full (sendQueue c) -> sendQueue c' = sendQueue c.
Proof.
  unfold flushBuf, full. intros H Hf.
  destruct ((n <? 0) || (len (buf c) <? n)); [discriminate|].
  destruct (tryRecv (bufPool c)) as [b p| |]; cbn in H;
    unfold trySend in H; cbn in H;
    destruct (closed (sendQueue c)); try discriminate;
    (destruct (len (items (sendQueue c)) <? capacity (sendQueue c)) eqn:E;
      [lia | inv_ok; reflexivity]).
Qed.

Lemma emitLine_queue_full (c c' : Client) (line : bytes) :
  emitLine c line = Ok c' -> full (sendQueue c) ->
  sendQueue c' = sendQueue c.
Proof.
  unfold emitLine, checkBuf. intros H Hf. break_match.
  - apply flushBuf_queue_full in H; [exact H | exact Hf].
  - inv_ok. reflexivity.
Qed.

Lemma emitLines_loss (ls : list bytes) (c c' : Client) :
  emitLines c ls = Ok c' ->
  sameLoss c c' \/ full (sendQueue c').
Proof.
  revert c. induction ls as [|l ls IH]; intros c H; simpl in H.
  - inv_ok. left. apply sameLoss_refl.
  - destruct (emitLine c l) as [c1|] eqn:E1; [|discriminate]. cbn in H.
    assert (Hstay : full (sendQueue c1) -> full (sendQueue c')).
    { clear - H. revert c1 H. induction ls as [|l' ls IH']; intros c1 H Hf.
      - simpl in H. inv_ok. exact Hf.
      - simpl in H. destruct (emitLine c1 l') as [c2|] eqn:E2; [|discriminate].
        cbn in H. apply (IH' c2 H).
        rewrite (emitLine_queue_full _ _ _ E2 Hf). exact Hf. }
    destruct (emitLine_loss _ _ _ E1) as [Hs|[Hf Hq]].
    + destruct (IH _ H) as [Hs'|Hf']; [left | right; exact Hf'].
      eapply sameLoss_trans; eassumption.
    + right. apply Hstay. rewrite Hq. exact Hf.
Qed.

Lemma flushWhole_loss (c c' : Client) :
  flushWhole c = Ok c' -> sameLoss c c' \/ full (sendQueue c').
Proof.
  unfold flushWhole. intros H. break_match.
  - destruct (flushBuf_loss _ _ _ H) as [Hs|[Hf Hq]]; [left; exact Hs|].
    right. rewrite Hq. exact Hf.
  - inv_ok. left. apply sameLoss_refl.
Qed.

Lemma returnToPool_frame (c c' : Client) (b : bytes) :
  returnToPool c b = Ok c' ->
  sameLoss c c' /\ sendQueue c' = sendQueue c /\ buf c' = buf c /\
  options c' = options c /\ shutdown c' = shutdown c /\
  shutdownWg c' = shutdownWg c.
Proof.
  unfold returnToPool. intros H. break_match; inv_ok;
    repeat split; reflexivity.
Qed.

Lemma wgDone_frame (c c' : Client) :
  wgDone c = Ok c' ->
  sameLoss c c' /\ sendQueue c' = sendQueue c /\ buf c' = buf c /\
  options c' = options c /\ shutdown c' = shutdown c /\
  shutdownWg c' = shutdownWg c - 1 /\ 0 <= shutdownWg c'.
Proof.
  unfold wgDone. intros H. break_match; inv_ok. cbn.
  repeat split; try reflexivity. lia.
Qed.

(** No step of a [sendLoop] changes a loss counter. *)
Lemma sendLoop_loss (w w' : World) (st st' : Worker) (inp : SendInput) :
  sendLoop w st inp = Ok (st', w') -> sameLoss (client w) (client w').
Proof.
  intros H. destruct st, inp; cbn in H; unfold bind in H;
    repeat (break_match; cbn in H); inv_ok; try (split; reflexivity).
  all: match goal with
       | H : wgDone _ = Ok _ |- _ => apply wgDone_frame in H
       | H : returnToPool _ _ = Ok _ |- _ => apply returnToPool_frame in H
       end;
       cbn in *; tauto.
Qed.

Lemma nth_error_setWorker (l : list Worker) (i : nat) (st st0 : Worker) :
  nth_error l i = Some st0 -> nth_error (setWorker l i st) i = Some st.
Proof.
  revert i. induction l as [|x l IH]; intros [|i] H; simpl in *;
    try discriminate; auto.
Qed.

Lemma length_setWorker (l : list Worker) (i : nat) (st : Worker) :
  List.length (setWorker l i st) = List.length l.
Proof.
  revert i. induction l as [|x l IH]; intros [|i]; simpl; auto.
Qed.

Lemma step_loss (F : float -> bytes) (w w' : World) (e : Event) :
  step F w e = Ok w' ->
  sameLoss (client w) (client w') \/
  e = Reporter ReportTick \/
  (((exists k, e = Emit k) \/ (exists inp, e = Flusher inp)) /\
   full (sendQueue (client w'))).
Proof.
  intros H. destruct e as [k|inp|i inp|inp|]; cbn in H.
  - destruct (call F (client w) k) as [c'|] eqn:E; [|discriminate].
    cbn in H. inv_ok. rewrite call_emitLines in E.
    destruct (emitLines_loss _ _ _ E) as [Hs|Hf]; [left; exact Hs|].
    right. right. split; [left; eauto | exact Hf].
  - unfold flushLoop in H. destruct (flushLoopRunning w); cbn in H;
      [|inv_ok; left; apply sameLoss_refl].
    destruct inp.
    + destruct (closed (shutdown (client w)));
        [|inv_ok; left; apply sameLoss_refl].
      destruct (flushWhole (client w)) as [c1|] eqn:E; [|discriminate].
      cbn in H. unfold closeChan in H.
      destruct (closed (sendQueue c1)); cbn in H; inv_ok.
      destruct (flushWhole_loss _ _ E) as [Hs|Hf]; [left; exact Hs|].
      right. right. split; [right; eauto | exact Hf].
    + destruct (FlushInterval (options (client w)) >? 0);
        [|inv_ok; left; apply sameLoss_refl].
      destruct (flushWhole (client w)) as [c1|] eqn:E; [|discriminate].
      cbn in H. inv_ok.
      destruct (flushWhole_loss _ _ E) as [Hs|Hf]; [left; exact Hs|].
      right. right. split; [right; eauto | exact Hf].
  - destruct (nth_error (senders w) i) as [st|];
      [|inv_ok; left; apply sameLoss_refl].
    destruct (sendLoop w st inp) as [[st' w1]|] eqn:E; [|discriminate].
    cbn in H. inv_ok. left. exact (sendLoop_loss _ _ _ _ _ E).
  - unfold reportLoop in H. destruct (reportLoopRunning w); cbn in H;
      [|inv_ok; left; apply sameLoss_refl].
    destruct inp; [|right; left; reflexivity].
    destruct (closed (shutdown (client w)));
      [|inv_ok; left; apply sameLoss_refl].
    destruct (wgDone (client w)) as [c1|] eqn:E; [|discriminate].
    cbn in H. inv_ok. left. apply wgDone_frame in E. tauto.
  - unfold Close, closeChan in H.
    destruct (closed (shutdown (client w))); cbn in H; inv_ok.
    left. split; reflexivity.
Qed.

(** ** Write failures *)

(** C4: when the write of a dequeued datagram fails, the worker logs the
    error and goes to [WAIT], from where it reconnects; the datagram has
    left the queue, nothing is written and nothing is put back, and both
    loss counters are as before.  No step of a send worker changes them:
    a step that does is the report tick, or an emission or a flush that
    found the queue full. *)
Theorem write_failure_is_not_counted (F : float -> bytes) (w : World)
  (i : nat) (b : bytes) (q : chan bytes) :
  nth_error (senders w) i = Some READY ->
  tryRecv (sendQueue (client w)) = Received b q ->
  b <> [] ->
  (exists w1,
     step F w (Sender i (Recv true)) = Ok w1 /\
     lostPacketsPeriod (client w1) = lostPacketsPeriod (client w) /\
     lostPacketsOverall (client w1) = lostPacketsOverall (client w) /\
     wire w1 = wire w /\
     sendQueue (client w1) = q /\
     bufPool (client w1) = bufPool (client w) /\
     buf (client w1) = buf (client w) /\
     logged w1 = logged w ++ [LogWriteError] /\
     nth_error (senders w1) i = Some WAIT /\
     exists w2,
       step F w1 (Sender i Slept) = Ok w2 /\
       nth_error (senders w2) i = Some RECONNECT /\
       client w2 = client w1) /\
  (forall j inp w',
     step F w (Sender j inp) = Ok w' -> sameLoss (client w) (client w')) /\
  (forall e w',
     step F w e = Ok w' ->
     ~ sameLoss (client w) (client w') ->
     e = Reporter ReportTick \/
     (((exists k, e = Emit k) \/ (exists inp, e = Flusher inp)) /\
      full (sendQueue (client w')))).
Proof.
  intros Hst Hrecv Hb.
  assert (Hlen : (len b >? 0) = true).
  { destruct b; [congruence|]. apply Z.gtb_lt. unfold len.
    cbn [List.length]. lia. }
  split; [|split].
  - eexists. split.
    + cbn. rewrite Hst. cbn. rewrite Hrecv, Hlen. cbn. reflexivity.
    + cbn. repeat (split; [reflexivity|]).
      split; [eapply nth_error_setWorker; eassumption|].
      eexists. split.
      * cbn. erewrite nth_error_setWorker by eassumption. cbn. reflexivity.
      * cbn. split; [|reflexivity].
        eapply nth_error_setWorker. eapply nth_error_setWorker. eassumption.
  - intros j inp w' H.
    destruct (step_loss F _ _ _ H) as [Hs|[Hr|[[[k Hk]|[x Hx]] _]]];
      [exact Hs | discriminate..].
  - intros e w' H Hn.
    destruct (step_loss F _ _ _ H) as [Hs|[Hr|Hf]]; [tauto | auto | auto].
Qed.

Lemma write_failure_is_not_counted_witness :
  nth_error (senders readyWorld) 0 = Some READY /\
  tryRecv (sendQueue (client readyWorld))
    = Received countLine (mkChan [] 1 false) /\
  countLine <> [] /\
  exists w1,
    step sampleFormat readyWorld (Sender 0 (Recv true)) = Ok w1 /\
    lostPacketsPeriod (client w1) = 0 /\
    lostPacketsOverall (client w1) = 0 /\
    wire w1 = [] /\
    items (sendQueue (client w1)) = [] /\
    senders w1 = [WAIT].
Proof.
  assert (H1 : nth_error (senders readyWorld) 0 = Some READY) by reflexivity.
  assert (H2 : tryRecv (sendQueue (client readyWorld))
               = Received countLine (mkChan [] 1 false)) by reflexivity.
  assert (H3 : countLine <> []) by discriminate.
  repeat (split; [assumption|]).
  destruct (write_failure_is_not_counted sampleFormat readyWorld 0 countLine
              (mkChan [] 1 false) H1 H2 H3)
    as ((w1 & E & Hp & Ho & Hw & Hq & _) & _).
  exists w1. split; [exact E|].
  rewrite Hp, Ho, Hw, Hq.
  repeat (split; [reflexivity|]).
  vm_compute in E. inversion E. reflexivity.
Defined.

(** ** The report tick and the overall counter *)

Lemma flushBuf_overall (c c' : Client) (n : Z) :
  flushBuf c n = Ok c' ->
  lostPacketsOverall c' = lostPacketsOverall c \/
  lostPacketsOverall c' = Int64.add (lostPacketsOverall c) 1.
Proof.
  unfold flushBuf. intros H.
  destruct ((n <? 0) || (len (buf c) <? n)); [discriminate|].
  destruct (tryRecv (bufPool c)) as [b p| |]; cbn in H;
    destruct (trySend (sendQueue c) _); inv_ok; cbn; auto.
Qed.

Lemma emitLine_overall (c c' : Client) (line : bytes) :
  emitLine c line = Ok c' ->
  lostPacketsOverall c' = lostPacketsOverall c \/
  lostPacketsOverall c' = Int64.add (lostPacketsOverall c) 1.
Proof.
  unfold emitLine, checkBuf. intros H. break_match.
  - apply flushBuf_overall in H. exact H.
  - inv_ok. left. reflexivity.
Qed.

Lemma emitLines_overall (ls : list bytes) (c c' : Client) :
  emitLines c ls = Ok c' ->
  Int64.min_int <= lostPacketsOverall c ->
  lostPacketsOverall c + len ls <= Int64.max_int ->
  lostPacketsOverall c <= lostPacketsOverall c'
    <= lostPacketsOverall c + len ls.
Proof.
  revert c. induction ls as [|l ls IH]; intros c H Hlo Hhi; simpl in H.
  - inv_ok. rewrite len_nil. lia.
  - destruct (emitLine c l) as [c1|] eqn:E1; [|discriminate]. cbn in H.
    change (l :: ls) with ([l] ++ ls) in *. rewrite len_app in *.
    change (len [l]) with 1 in *.
    pose proof (len_nonneg ls).
    assert (H1 : lostPacketsOverall c <= lostPacketsOverall c1
                 <= lostPacketsOverall c + 1).
    { destruct (emitLine_overall _ _ _ E1) as [->| ->]; [lia|].
      rewrite Int64_add_1; lia. }
    specialize (IH c1 H). lia.
Qed.

Lemma linesOf_length (F : float -> bytes) (o : ClientOptions) (k : Call) :
  len (linesOf F o k) <= 2.
Proof.
  destruct k; cbn [linesOf]; repeat break_match; unfold len; simpl; lia.
Qed.

Lemma flushWhole_overall (c c' : Client) :
  flushWhole c = Ok c' ->
  lostPacketsOverall c' = lostPacketsOverall c \/
  lostPacketsOverall c' = Int64.add (lostPacketsOverall c) 1.
Proof.
  unfold flushWhole. intros H. break_match.
  - apply flushBuf_overall in H. exact H.
  - inv_ok. left. reflexivity.
Qed.




(** ** What the buffer and the queue hold along a run *)

Section PacketInvariant.

Variable F : float -> bytes.
Variable o : ClientOptions.

(** [Pb] is kept by the buffer, [P] by every queued packet, [Q] holds of
    the emitted lines, [R] of the datagrams written. *)
Variables Pb P Q R : bytes -> Prop.

Hypothesis Pb_nil : Pb [].
Hypothesis Pb_line : forall l, Q l -> Pb l.
Hypothesis Pb_app :
  forall a l, Pb a -> Q l -> len (a ++ l) <= MaxPacketSize o -> Pb (a ++ l).
Hypothesis P_over : forall a l, Pb a -> Q l -> P a.
Hypothesis P_whole : forall a, Pb a -> a <> [] -> P a.
Hypothesis R_cut : forall b, P b -> b <> [] -> R (removelast b).

Lemma flushBuf_good (c c' : Client) (pre tail : bytes) :
  options c = o -> Forall P (items (sendQueue c)) ->
  buf c = pre ++ tail -> P pre -> Pb tail ->
  flushBuf c (len pre) = Ok c' -> goodClient o Pb P c'.
Proof.
  intros Ho Hq Hb Hpre Htail H.
  rewrite (flushBuf_cases c pre tail Hb) in H. unfold trySend in H.
  destruct (closed (sendQueue c)); [discriminate|].
  destruct (len (items (sendQueue c)) <? capacity (sendQueue c));
    inv_ok; unfold goodClient; cbn; repeat split; auto.
  apply Forall_app. split; [assumption|]. constructor; auto.
Qed.

Lemma emitLine_good (c c' : Client) (line : bytes) :
  goodClient o Pb P c -> Q line -> emitLine c line = Ok c' ->
  goodClient o Pb P c'.
Proof.
  intros (Ho & Hb & Hq) Hl H.
  destruct (Z_le_gt_dec (len (buf c) + len line) (MaxPacketSize (options c)))
    as [Hfit|Hover].
  - rewrite emitLine_fits in H by assumption. injection H as <-.
    unfold goodClient. cbn. repeat split; auto.
    apply Pb_app; auto. rewrite len_app, <- Ho. exact Hfit.
  - unfold emitLine, checkBuf in H. cbn in H. rewrite len_app in H.
    destruct (len (buf c) + len line >? MaxPacketSize (options c)) eqn:E;
      [|lia].
    eapply (flushBuf_good (with_buf c (buf c ++ line)) c' (buf c) line);
      cbn; auto.
    apply (P_over _ line); assumption.
Qed.

Lemma emitLines_good (ls : list bytes) (c c' : Client) :
  goodClient o Pb P c -> Forall Q ls -> emitLines c ls = Ok c' ->
  goodClient o Pb P c'.
Proof.
  revert c. induction ls as [|l ls IH]; intros c Hg Hls H; simpl in H.
  - inv_ok. exact Hg.
  - inversion Hls; subst.
    destruct (emitLine c l) as [c1|] eqn:E1; [|discriminate]. cbn in H.
    eapply IH; [|eassumption|exact H].
    eapply emitLine_good; eassumption.
Qed.

Lemma flushWhole_good (c c' : Client) :
  goodClient o Pb P c -> flushWhole c = Ok c' -> goodClient o Pb P c'.
Proof.
  intros (Ho & Hb & Hq) H. unfold flushWhole in H.
  destruct (len (buf c) >? 0) eqn:E.
  - eapply (flushBuf_good c c' (buf c) []); eauto.
    + symmetry. apply app_nil_r.
    + apply P_whole; auto. intros Hn. rewrite Hn in E. discriminate.
  - injection H as <-. repeat split; assumption.
Qed.

Lemma sendLoop_good (w w' : World) (st st' : Worker) (inp : SendInput) :
  goodWorld o Pb P R w -> sendLoop w st inp = Ok (st', w') ->
  goodWorld o Pb P R w'.
Proof.
  intros ((Ho & Hb & Hq) & Hw) H.
  destruct st, inp; cbn in H; inv_ok;
    try (repeat split; assumption).
  - destruct err; inv_ok; repeat split; assumption.
  - unfold tryRecv in H.
    destruct (items (sendQueue (client w))) as [|b rest] eqn:Eq.
    + destruct (closed (sendQueue (client w))).
      * cbn in H. destruct (wgDone (client w)) as [c1|] eqn:E;
          [|discriminate].
        cbn in H. inv_ok. apply wgDone_frame in E.
        destruct E as (_ & E1 & E2 & E3 & _).
        unfold goodWorld, goodClient. cbn. rewrite E1, E2, E3, Eq.
        repeat split; auto.
      * inv_ok. unfold goodWorld, goodClient. rewrite Eq.
        repeat split; auto.
    + inversion Hq as [|b' rest' Hpb Hprest]; subst.
      destruct ((len b >? 0) && err) eqn:Eerr.
      * inv_ok. unfold goodWorld, goodClient. cbn. repeat split; auto.
      * unfold bind in H. break_match; [|discriminate]. inv_ok.
        match goal with
        | H : returnToPool _ _ = Ok _ |- _ =>
            apply returnToPool_frame in H;
            destruct H as (_ & E1 & E2 & E3 & _)
        end.
        unfold goodWorld, goodClient. cbn.
        rewrite E1, E2, E3.
        destruct (len b >? 0) eqn:Elen; cbn in *;
          repeat split; auto.
        apply Forall_app. split; [assumption|]. constructor; auto.
        rewrite slice_removelast. apply R_cut; auto.
        intros ->. discriminate.
  - break_match; inv_ok; repeat split; assumption.
Qed.

Lemma step_good (w w' : World) (e : Event) :
  goodWorld o Pb P R w -> Forall Q (emitted F o e) ->
  step F w e = Ok w' -> goodWorld o Pb P R w'.
Proof.
  intros Hg He H. pose proof Hg as ((Ho & Hb & Hq) & Hw).
  destruct e as [k|inp|i inp|inp|]; cbn in H.
  - destruct (call F (client w) k) as [c'|] eqn:E; [|discriminate].
    cbn in H. injection H as <-. rewrite call_emitLines, Ho in E.
    cbn in He. split; [|exact Hw]. cbn.
    eapply emitLines_good; [|exact He|exact E]. repeat split; assumption.
  - unfold flushLoop in H. destruct (flushLoopRunning w); cbn in H;
      [|injection H as <-; exact Hg].
    destruct inp.
    + destruct (closed (shutdown (client w)));
        [|injection H as <-; exact Hg].
      destruct (flushWhole (client w)) as [c1|] eqn:E; [|discriminate].
      cbn in H. unfold closeChan in H.
      destruct (closed (sendQueue c1)); cbn in H; [discriminate|].
      injection H as <-.
      apply flushWhole_good in E; [|repeat split; assumption].
      destruct E as (E1 & E2 & E3). repeat split; assumption.
    + destruct (FlushInterval (options (client w)) >? 0);
        [|injection H as <-; exact Hg].
      destruct (flushWhole (client w)) as [c1|] eqn:E; [|discriminate].
      cbn in H. injection H as <-.
      apply flushWhole_good in E; [|repeat split; assumption].
      split; assumption.
  - destruct (nth_error (senders w) i) as [st|];
      [|injection H as <-; exact Hg].
    destruct (sendLoop w st inp) as [[st' w1]|] eqn:E; [|discriminate].
    cbn in H. injection H as <-. apply (sendLoop_good _ _ _ _ _ Hg) in E.
    exact E.
  - unfold reportLoop in H. destruct (reportLoopRunning w); cbn in H;
      [|injection H as <-; exact Hg].
    destruct inp.
    + destruct (closed (shutdown (client w)));
        [|injection H as <-; exact Hg].
      destruct (wgDone (client w)) as [c1|] eqn:E; [|discriminate].
      cbn in H. injection H as <-. apply wgDone_frame in E.
      destruct E as (_ & E1 & E2 & E3 & _).
      unfold goodWorld, goodClient. cbn. rewrite E1, E2, E3.
      repeat split; assumption.
    + destruct (lostPacketsPeriod (client w) >? 0);
        injection H as <-; repeat split; assumption.
  - unfold Close, closeChan in H.
    destruct (closed (shutdown (client w))); cbn in H; [discriminate|].
    injection H as <-. repeat split; assumption.
Qed.

Lemma run_good (es : list Event) (w w' : World) :
  goodWorld o Pb P R w ->
  (forall e l, In e es -> In l (emitted F o e) -> Q l) ->
  run F w es = Ok w' -> goodWorld o Pb P R w'.
Proof.
  revert w. induction es as [|e es IH]; intros w Hg He H; simpl in H.
  - inv_ok. exact Hg.
  - destruct (step F w e) as [w1|] eqn:E; [|discriminate]. cbn in H.
    apply (IH w1); auto.
    + eapply step_good; [exact Hg | | exact E].
      apply Forall_forall. intros l Hl. apply (He e l); simpl; auto.
    + intros e' l Hin Hl. apply (He e' l); simpl; auto.
Qed.

End PacketInvariant.

(** ** The client as [NewClient] returns it *)

Lemma NewClient_init (D : Defaults) (addr : bytes) (opts : list Option_)
  (w0 : World) :
  NewClient D addr opts = Ok w0 ->
  buf (client w0) = [] /\
  items (sendQueue (client w0)) = [] /\
  closed (sendQueue (client w0)) = false /\
  closed (shutdown (client w0)) = false /\
  wire w0 = [] /\
  flushLoopRunning w0 = true /\
  senders w0 = repeat RECONNECT (Z.to_nat (SendLoopCount (options (client w0)))) /\
  reportLoopRunning w0 = (ReportInterval (options (client w0)) >? 0) /\
  shutdownWg (client w0) =
    Z.of_nat (Z.to_nat (SendLoopCount (options (client w0))))
    + (if reportLoopRunning w0 then 1 else 0).
Proof.
  unfold NewClient. intros H.
  repeat match type of H with
         | (if ?b then _ else _) = _ => destruct b; [discriminate|]
         end.
  injection H as <-. cbn. repeat split; reflexivity.
Qed.

(** ** The size of the packets *)




(** ** The lifecycle invariant *)

Lemma sameControl_refl (c : Client) : sameControl c c.
Proof. repeat split. Qed.

Lemma sameControl_trans (a b c : Client) :
  sameControl a b -> sameControl b c -> sameControl a c.
Proof.
  unfold sameControl. intros (?&?&?&?&?) (?&?&?&?&?).
  repeat split; congruence.
Qed.

Lemma flushBuf_control (c c' : Client) (n : Z) :
  flushBuf c n = Ok c' -> sameControl c c'.
Proof.
  unfold flushBuf. intros H.
  destruct ((n <? 0) || (len (buf c) <? n)); [discriminate|].
  unfold tryRecv, trySend in H.
  destruct (items (bufPool c)) as [|b rest]; cbn in H;
    try destruct (closed (bufPool c)) eqn:Ep; cbn in H;
    destruct (closed (sendQueue c)) eqn:Eq; try discriminate;
    destruct (len (items (sendQueue c)) <? capacity (sendQueue c));
    injection H as <-; unfold sameControl; cbn; rewrite ?Eq, ?Ep;
    repeat split; reflexivity.
Qed.

Lemma emitLine_control (c c' : Client) (line : bytes) :
  emitLine c line = Ok c' -> sameControl c c'.
Proof.
  unfold emitLine, checkBuf. intros H. break_match.
  - apply flushBuf_control in H. exact H.
  - injection H as <-. repeat split.
Qed.

Lemma emitLines_control (ls : list bytes) (c c' : Client) :
  emitLines c ls = Ok c' -> sameControl c c'.
Proof.
  revert c. induction ls as [|l ls IH]; intros c H; simpl in H.
  - injection H as <-. apply sameControl_refl.
  - destruct (emitLine c l) as [c1|] eqn:E1; [|discriminate]. cbn in H.
    eapply sameControl_trans; [eapply emitLine_control; eassumption|].
    apply IH. exact H.
Qed.

Lemma flushWhole_control (c c' : Client) :
  flushWhole c = Ok c' -> sameControl c c'.
Proof.
  unfold flushWhole. intros H. break_match.
  - apply flushBuf_control in H. exact H.
  - injection H as <-. apply sameControl_refl.
Qed.

Lemma live_bounds (l : list Worker) : 0 <= live l <= len l.
Proof.
  induction l as [|st l IH]; [unfold len; simpl; lia|].
  change (st :: l) with ([st] ++ l). rewrite len_app.
  change (len [st]) with 1. cbn [app live].
  destruct (exited st); lia.
Qed.

Lemma live_setWorker (l : list Worker) (i : nat) (st st' : Worker) :
  nth_error l i = Some st ->
  live (setWorker l i st')
  = live l - (if exited st then 0 else 1) + (if exited st' then 0 else 1).
Proof.
  revert i. induction l as [|x l IH]; intros [|i] H; simpl in *;
    try discriminate.
  - injection H as ->. lia.
  - rewrite (IH _ H). lia.
Qed.

Lemma len_setWorker (l : list Worker) (i : nat) (st : Worker) :
  len (setWorker l i st) = len l.
Proof. unfold len. rewrite length_setWorker. reflexivity. Qed.

Lemma live_all (l : list Worker) (i : nat) (st : Worker) :
  live l = len l -> nth_error l i = Some st -> exited st = false.
Proof.
  revert i. induction l as [|x l IH]; intros i Hl Hn.
  - destruct i; discriminate.
  - change (x :: l) with ([x] ++ l) in Hl. rewrite len_app in Hl.
    change (len [x]) with 1 in Hl. cbn [app live] in Hl.
    pose proof (live_bounds l).
    destruct i as [|i]; simpl in Hn.
    + injection Hn as ->. destruct (exited st); [lia | reflexivity].
    + apply (IH i); [destruct (exited x); lia | exact Hn].
Qed.

Lemma flushBuf_closed (c c' : Client) (n : Z) :
  flushBuf c n = Ok c' -> closed (sendQueue c) = false.
Proof.
  unfold flushBuf. intros H.
  destruct ((n <? 0) || (len (buf c) <? n)); [discriminate|].
  unfold trySend in H.
  destruct (tryRecv (bufPool c)); cbn in H;
    destruct (closed (sendQueue c)); try discriminate; reflexivity.
Qed.

Lemma emitLine_closed (c c' : Client) (line : bytes) :
  emitLine c line = Ok c' -> closed (sendQueue c) = true ->
  sendQueue c' = sendQueue c.
Proof.
  unfold emitLine, checkBuf. intros H Hc. break_match.
  - apply flushBuf_closed in H. cbn in H. congruence.
  - injection H as <-. reflexivity.
Qed.

Lemma emitLines_closed (ls : list bytes) (c c' : Client) :
  emitLines c ls = Ok c' -> closed (sendQueue c) = true ->
  sendQueue c' = sendQueue c.
Proof.
  revert c. induction ls as [|l ls IH]; intros c H Hc; simpl in H.
  - injection H as <-. reflexivity.
  - destruct (emitLine c l) as [c1|] eqn:E1; [|discriminate]. cbn in H.
    pose proof (emitLine_closed _ _ _ E1 Hc) as E.
    rewrite <- E. apply IH; [exact H | rewrite E; exact Hc].
Qed.

Lemma flushWhole_closed (c c' : Client) :
  flushWhole c = Ok c' -> closed (sendQueue c) = true ->
  sendQueue c' = sendQueue c.
Proof.
  unfold flushWhole. intros H Hc. break_match.
  - apply flushBuf_closed in H. congruence.
  - injection H as <-. reflexivity.
Qed.

Lemma wgDone_eq (c c' : Client) :
  wgDone c = Ok c' ->
  c' = with_shutdownWg c (shutdownWg c - 1) /\ 0 <= shutdownWg c - 1.
Proof.
  unfold wgDone. intros H.
  destruct (shutdownWg c - 1 <? 0) eqn:E; [discriminate|].
  injection H as <-. split; [reflexivity | lia].
Qed.

Lemma returnToPool_eq (c c' : Client) (b : bytes) :
  closed (bufPool c) = false ->
  returnToPool c b = Ok c' ->
  exists p, c' = with_bufPool c p /\ closed p = false.
Proof.
  unfold returnToPool, trySend. intros Hp H. rewrite Hp in H.
  destruct (len (items (bufPool c)) <? capacity (bufPool c));
    injection H as <-.
  - eexists. split; reflexivity.
  - exists (bufPool c). split; [destruct c; reflexivity | exact Hp].
Qed.

(** What a step of a send loop does to the lifecycle: it keeps the loop
    running, or it is the return on a closed and drained queue. *)
Lemma sendLoop_control (w w' : World) (st st' : Worker) (inp : SendInput) :
  closed (bufPool (client w)) = false ->
  sendLoop w st inp = Ok (st', w') ->
  flushLoopRunning w' = flushLoopRunning w /\
  senders w' = senders w /\
  reportLoopRunning w' = reportLoopRunning w /\
  closed (bufPool (client w')) = false /\
  closed (sendQueue (client w')) = closed (sendQueue (client w)) /\
  shutdown (client w') = shutdown (client w) /\
  ((exited st' = exited st /\
    shutdownWg (client w') = shutdownWg (client w) /\
    (items (sendQueue (client w')) = items (sendQueue (client w)) \/
     items (sendQueue (client w)) <> [])) \/
   (exited st = false /\ st' = EXITED /\
    shutdownWg (client w') = shutdownWg (client w) - 1 /\
    closed (sendQueue (client w)) = true /\
    items (sendQueue (client w)) = [] /\
    items (sendQueue (client w')) = [])).
Proof.
  intros Hp H.
  destruct st, inp; cbn in H;
    try (injection H as <- <-; cbn;
         repeat (split; [assumption || reflexivity|]);
         left; repeat split; auto).
  - destruct err; injection H as <- <-; cbn;
      repeat (split; [assumption || reflexivity|]);
      left; repeat split; auto.
  - unfold tryRecv in H.
    destruct (items (sendQueue (client w))) as [|b rest] eqn:Eitems.
    + destruct (closed (sendQueue (client w))) eqn:Eclosed.
      * cbn in H. destruct (wgDone (client w)) as [c1|] eqn:E;
          [|discriminate].
        cbn in H. injection H as <- <-. apply wgDone_eq in E.
        destruct E as [-> _]. cbn. rewrite ?Eitems.
        repeat (split; [assumption || reflexivity|]).
        right. repeat split; reflexivity.
      * injection H as <- <-. rewrite ?Eitems, ?Eclosed.
        repeat (split; [assumption || reflexivity|]).
        left. repeat split; auto.
    + destruct ((len b >? 0) && err).
      * injection H as <- <-. cbn. rewrite ?Eitems.
        repeat (split; [assumption || reflexivity|]).
        left. repeat split; auto. right. discriminate.
      * unfold bind in H.
        match type of H with
        | match ?r with _ => _ end = _ => destruct r as [c1|] eqn:E
        end; [|discriminate].
        injection H as <- <-.
        apply returnToPool_eq in E;
          [|destruct (len b >? 0); cbn; exact Hp].
        destruct E as (p & -> & Hclosed).
        destruct (len b >? 0); cbn; rewrite ?Eitems;
          (repeat (split; [assumption || reflexivity|])); left;
          (repeat split; auto); right; discriminate.
  - destruct (ReconnectInterval (options (client w)) >? 0);
      injection H as <- <-;
      repeat (split; [assumption || reflexivity|]);
      left; repeat split; auto.
Qed.

Lemma step_controlled (F : float -> bytes) (w w' : World) (e : Event) :
  controlled w -> step F w e = Ok w' ->
  controlled w' /\
  len (senders w') = len (senders w) /\
  (closed (shutdown (client w)) = true ->
   closed (shutdown (client w')) = true) /\
  (e <> CloseCall -> shutdown (client w') = shutdown (client w)).
Proof.
  intros Hc H. pose proof Hc as (Hpool & Hqueue & Hwg & Hexit).
  destruct e as [k|inp|i inp|inp|]; cbn in H.
  - destruct (call F (client w) k) as [c'|] eqn:E; [|discriminate].
    cbn in H. injection H as <-. rewrite call_emitLines in E.
    pose proof (emitLines_control _ _ _ E) as (C1 & C2 & C3 & C4 & C5).
    unfold controlled. cbn. rewrite C1, C2, C3, C4.
    split; [|split; [reflexivity|split; auto]].
    repeat (split; [assumption|]).
    intros Hl. apply Hexit in Hl. destruct Hl as [L1 L2].
    split; [exact L1|]. rewrite (emitLines_closed _ _ _ E L1). exact L2.
  - unfold flushLoop in H. destruct (flushLoopRunning w) eqn:Erun; cbn in H;
      [|injection H as <-; split; [exact Hc|]; repeat split; auto; congruence].
    destruct inp.
    + destruct (closed (shutdown (client w))) eqn:Eshut;
        [|injection H as <-; split; [exact Hc|]; repeat split; auto; congruence].
      destruct (flushWhole (client w)) as [c1|] eqn:E; [|discriminate].
      cbn in H. unfold closeChan in H.
      destruct (closed (sendQueue c1)) eqn:Eq1; cbn in H; [discriminate|].
      injection H as <-.
      pose proof (flushWhole_control _ _ E) as (C1 & C2 & C3 & C4 & C5).
      unfold controlled. cbn. rewrite C1, C3, C4, Eshut.
      split; [|split; [reflexivity|split; auto]].
      split; [assumption|]. split; [reflexivity|]. split; [assumption|].
      intros Hl. apply Hexit in Hl. destruct Hl as [L1 L2]. congruence.
    + destruct (FlushInterval (options (client w)) >? 0);
        [|injection H as <-; split; [exact Hc|]; repeat split; auto; congruence].
      destruct (flushWhole (client w)) as [c1|] eqn:E; [|discriminate].
      cbn in H. injection H as <-.
      pose proof (flushWhole_control _ _ E) as (C1 & C2 & C3 & C4 & C5).
      unfold controlled. cbn. rewrite C1, C2, C3, C4, Erun.
      split; [|split; [reflexivity|split; auto]].
      repeat (split; [assumption|]).
      intros Hl. apply Hexit in Hl. destruct Hl as [L1 L2].
      split; [exact L1|]. rewrite (flushWhole_closed _ _ E L1). exact L2.
  - destruct (nth_error (senders w) i) as [st|] eqn:Enth;
      [|injection H as <-; split; [exact Hc|]; repeat split; auto; congruence].
    destruct (sendLoop w st inp) as [[st' w1]|] eqn:E; [|discriminate].
    cbn in H. injection H as <-.
    destruct (sendLoop_control _ _ _ _ _ Hpool E)
      as (S1 & S2 & S3 & S4 & S5 & S6 & S7).
    unfold controlled. cbn. rewrite S1, S2, S3, S5, S6.
    rewrite len_setWorker, (live_setWorker _ _ _ _ Enth).
    split; [|split; [reflexivity|split; auto]].
    split; [exact S4|]. split; [exact Hqueue|].
    destruct S7 as [(X1 & X2 & X3)|(X1 & X2 & X3 & X4 & X5 & X6)].
    + rewrite X1, X2. split; [lia|].
      intros Hl.
      assert (Hl' : live (senders w) <> len (senders w)) by lia.
      apply Hexit in Hl'. destruct Hl' as [L1 L2].
      split; [exact L1|]. destruct X3 as [X3|X3]; congruence.
    + subst st'. rewrite X1, X3. cbn. split; [lia|].
      intros _. split; assumption.
  - unfold reportLoop in H. destruct (reportLoopRunning w) eqn:Erun;
      cbn in H; [|injection H as <-; split; [exact Hc|]; repeat split; auto; congruence].
    destruct inp.
    + destruct (closed (shutdown (client w))) eqn:Eshut;
        [|injection H as <-; split; [exact Hc|]; repeat split; auto; congruence].
      destruct (wgDone (client w)) as [c1|] eqn:E; [|discriminate].
      cbn in H. injection H as <-. apply wgDone_eq in E.
      destruct E as [-> _]. unfold controlled. cbn. rewrite Eshut.
      split; [|split; [reflexivity|split; auto]].
      repeat (split; [assumption|]). split; [lia | exact Hexit].
    + destruct (lostPacketsPeriod (client w) >? 0);
        injection H as <-; unfold controlled; cbn; rewrite ?Erun;
        (split; [|split; [reflexivity|split; auto]]);
        repeat (split; [assumption|]); exact Hexit.
  - unfold Close, closeChan in H.
    destruct (closed (shutdown (client w))) eqn:Eshut; cbn in H;
      [discriminate|].
    injection H as <-. unfold controlled. cbn.
    split; [|split; [reflexivity|split; [reflexivity|congruence]]].
    repeat (split; [assumption|]). exact Hexit.
Qed.

Lemma run_controlled (F : float -> bytes) (es : list Event) (w w' : World) :
  controlled w -> run F w es = Ok w' ->
  controlled w' /\
  len (senders w') = len (senders w) /\
  (closed (shutdown (client w)) = true ->
   closed (shutdown (client w')) = true) /\
  (~ In CloseCall es -> shutdown (client w') = shutdown (client w)).
Proof.
  revert w. induction es as [|e es IH]; intros w Hc H; simpl in H.
  - injection H as <-. split; [exact Hc|]. repeat split; auto.
  - destruct (step F w e) as [w1|] eqn:E; [|discriminate]. cbn in H.
    destruct (step_controlled F _ _ _ Hc E) as (C1 & C2 & C3 & C4).
    destruct (IH _ C1 H) as (D1 & D2 & D3 & D4).
    split; [exact D1|]. split; [congruence|]. split; [auto|].
    intros Hn. rewrite D4, C4.
    + reflexivity.
    + intros ->. apply Hn. left. reflexivity.
    + intros Hin. apply Hn. right. exact Hin.
Qed.

Lemma NewClient_controlled (D : Defaults) (addr : bytes)
  (opts : list Option_) (w0 : World) :
  NewClient D addr opts = Ok w0 -> controlled w0.
Proof.
  unfold NewClient. intros H.
  repeat match type of H with
         | (if ?b then _ else _) = _ => destruct b; [discriminate|]
         end.
  injection H as <-. unfold controlled. cbn.
  assert (L : forall n, live (repeat RECONNECT n) = Z.of_nat n /\
                        len (repeat RECONNECT n) = Z.of_nat n).
  { intros n. unfold len. rewrite repeat_length. split; [|reflexivity].
    induction n as [|n IHn]; [reflexivity|].
    cbn [repeat live exited]. rewrite IHn. lia. }
  destruct (L (Z.to_nat
    (SendLoopCount (fold_left (fun o (option : Option_) => option o) opts
      (mkOptions addr (DefaultMetricPrefix D) (DefaultMaxPacketSize D)
         (DefaultFlushInterval D) (DefaultReconnectInterval D)
         (DefaultReportInterval D) (DefaultRetryTimeout D)
         (DefaultBufPoolCapacity D) (DefaultSendQueueCapacity D)
         (DefaultSendLoopCount D)))))) as [L1 L2].
  rewrite L1, L2. repeat split; auto; lia.
Qed.

(** ** Packets are whole lines *)

Lemma terminated_app (a b : list bytes) :
  terminated (a ++ b) = terminated a ++ terminated b.
Proof. unfold terminated. rewrite map_app, concat_app. reflexivity. Qed.

Lemma terminated_one (body : bytes) : terminated [body] = body ++ [newline].
Proof. unfold terminated. simpl. apply app_nil_r. Qed.

Lemma terminated_nil (bodies : list bytes) :
  terminated bodies = [] -> bodies = [].
Proof.
  destruct bodies as [|b rest]; [reflexivity|].
  unfold terminated. simpl. intros H. apply app_eq_nil in H.
  destruct H as [H _]. apply app_eq_nil in H. destruct H. discriminate.
Qed.

Lemma removelast_terminated (bodies : list bytes) :
  bodies <> [] -> removelast (terminated bodies) = joined bodies.
Proof.
  induction bodies as [|b rest IH]; [congruence|]. intros _.
  destruct rest as [|r rest'].
  - rewrite terminated_one. apply removelast_last.
  - change (b :: r :: rest') with ([b] ++ r :: rest').
    rewrite terminated_app, terminated_one, removelast_app.
    + rewrite IH by discriminate. cbn [app joined].
      rewrite <- app_assoc. reflexivity.
    + intros H. apply terminated_nil in H. discriminate.
Qed.

Lemma wholeLines_end (p : bytes) :
  wholeLines p -> p = [] \/ exists front, p = front ++ [newline].
Proof.
  intros [bodies ->]. destruct bodies as [|b rest].
  - left. reflexivity.
  - right. destruct (@exists_last _ (b :: rest)) as (init & lst & E);
      [discriminate|].
    rewrite E, terminated_app, terminated_one.
    exists (terminated init ++ lst). rewrite app_assoc. reflexivity.
Qed.

Lemma metricLine_terminated (o : ClientOptions) (stat value suffix : bytes) :
  exists body, metricLine o stat value suffix = body ++ [newline].
Proof.
  exists (MetricPrefix o ++ stat ++ [x3a] ++ value ++ suffix).
  unfold metricLine. repeat rewrite <- app_assoc. reflexivity.
Qed.

Lemma linesOf_terminated (F : float -> bytes) (o : ClientOptions)
  (k : Call) (l : bytes) :
  In l (linesOf F o k) -> exists body, l = body ++ [newline].
Proof.
  destruct k; cbn [linesOf]; repeat break_match; simpl;
    intros H; repeat (destruct H as [<-|H]; [apply metricLine_terminated|]);
    contradiction.
Qed.



(** ** Close *)




(** ** No panic but after shutdown *)

Lemma flushWhole_total (c : Client) :
  closed (sendQueue c) = false -> exists c', flushWhole c = Ok c'.
Proof.
  intros Hopen. unfold flushWhole.
  destruct (len (buf c) >? 0); [|eexists; reflexivity].
  rewrite (flushBuf_cases c (buf c) []) by (symmetry; apply app_nil_r).
  unfold trySend. rewrite Hopen.
  destruct (len (items (sendQueue c)) <? capacity (sendQueue c));
    eexists; reflexivity.
Qed.

Lemma live_pos (l : list Worker) (i : nat) (st : Worker) :
  nth_error l i = Some st -> exited st = false -> 1 <= live l.
Proof.
  revert i. induction l as [|x l IH]; intros [|i] H He; simpl in H;
    try discriminate.
  - injection H as ->. cbn [live]. rewrite He.
    pose proof (live_bounds l). lia.
  - cbn [live]. specialize (IH _ H He). destruct (exited x); lia.
Qed.

Lemma sendLoop_total (w : World) (st : Worker) (inp : SendInput) :
  closed (bufPool (client w)) = false ->
  (exited st = false -> 1 <= shutdownWg (client w)) ->
  exists r, sendLoop w st inp = Ok r.
Proof.
  intros Hpool Hwg.
  destruct st, inp; cbn; try (eexists; reflexivity).
  - destruct err; eexists; reflexivity.
  - destruct (tryRecv (sendQueue (client w))) as [b q| |].
    + destruct ((len b >? 0) && err); [eexists; reflexivity|].
      unfold returnToPool, trySend.
      destruct (len b >? 0); cbn; rewrite Hpool;
        destruct (len (items (bufPool (client w)))
                  <? capacity (bufPool (client w)));
        eexists; reflexivity.
    + eexists; reflexivity.
    + unfold wgDone. specialize (Hwg eq_refl).
      destruct (shutdownWg (client w) - 1 <? 0) eqn:E; [lia|].
      eexists; reflexivity.
  - destruct (ReconnectInterval (options (client w)) >? 0);
      eexists; reflexivity.
Qed.

(** In a state that keeps the lifecycle invariant a step goes through,
    unless it is a [Close] on a closed shutdown channel or an emission
    after [flushLoop] returned. *)
Lemma step_total (F : float -> bytes) (w : World) (e : Event) :
  controlled w ->
  (e = CloseCall -> closed (shutdown (client w)) = false) ->
  (forall k, e = Emit k -> flushLoopRunning w = true) ->
  exists w', step F w e = Ok w'.
Proof.
  intros (Hpool & Hqueue & Hwg & Hexit) Hclose Hemit.
  destruct e as [k|inp|i inp|inp|]; cbn.
  - rewrite call_emitLines.
    assert (Hopen : closed (sendQueue (client w)) = false)
      by (rewrite Hqueue, (Hemit k eq_refl); reflexivity).
    destruct (emitLines_total (linesOf F (options (client w)) k) _ Hopen)
      as (c' & E & _).
    rewrite E. eexists; reflexivity.
  - unfold flushLoop. destruct (flushLoopRunning w) eqn:Erun; cbn;
      [|eexists; reflexivity].
    assert (Hopen : closed (sendQueue (client w)) = false)
      by (rewrite Hqueue; reflexivity).
    destruct (flushWhole_total _ Hopen) as (c' & E).
    pose proof (flushWhole_control _ _ E) as (_ & C2 & _).
    destruct inp.
    + destruct (closed (shutdown (client w))); [|eexists; reflexivity].
      rewrite E. cbn. unfold closeChan. rewrite C2, Hopen. cbn.
      eexists; reflexivity.
    + destruct (FlushInterval (options (client w)) >? 0);
        [|eexists; reflexivity].
      rewrite E. eexists; reflexivity.
  - destruct (nth_error (senders w) i) as [st|] eqn:Enth;
      [|eexists; reflexivity].
    destruct (sendLoop_total w st inp Hpool) as (r & E).
    + intros He. pose proof (live_pos _ _ _ Enth He).
      destruct (reportLoopRunning w); lia.
    + rewrite E. eexists; reflexivity.
  - unfold reportLoop. destruct (reportLoopRunning w) eqn:Erun; cbn;
      [|eexists; reflexivity].
    destruct inp.
    + destruct (closed (shutdown (client w))); [|eexists; reflexivity].
      unfold wgDone. pose proof (live_bounds (senders w)).
      destruct (shutdownWg (client w) - 1 <? 0) eqn:E; [lia|].
      eexists; reflexivity.
    + destruct (lostPacketsPeriod (client w) >? 0); eexists; reflexivity.
  - unfold Close, closeChan. rewrite (Hclose eq_refl). eexists; reflexivity.
Qed.

(** While the shutdown channel is open, [flushLoop] keeps running. *)
Lemma step_running (F : float -> bytes) (w w' : World) (e : Event) :
  controlled w ->
  closed (shutdown (client w)) = false ->
  step F w e = Ok w' ->
  flushLoopRunning w' = flushLoopRunning w.
Proof.
  intros (Hpool & _) Hshut H.
  destruct e as [k|inp|i inp|inp|]; cbn in H.
  - destruct (call F (client w) k); [|discriminate]. cbn in H.
    injection H as <-. reflexivity.
  - unfold flushLoop in H. destruct (flushLoopRunning w) eqn:Er; cbn in H;
      [|injection H as <-; exact Er].
    destruct inp.
    + rewrite Hshut in H. injection H as <-. exact Er.
    + destruct (FlushInterval (options (client w)) >? 0);
        [|injection H as <-; exact Er].
      destruct (flushWhole (client w)); [|discriminate]. cbn in H.
      injection H as <-. exact Er.
  - destruct (nth_error (senders w) i) as [st|];
      [|injection H as <-; reflexivity].
    destruct (sendLoop w st inp) as [[st' w1]|] eqn:E; [|discriminate].
    cbn in H. injection H as <-. cbn.
    apply (sendLoop_control _ _ _ _ _ Hpool) in E. tauto.
  - unfold reportLoop in H. destruct (reportLoopRunning w); cbn in H;
      [|injection H as <-; reflexivity].
    destruct inp.
    + rewrite Hshut in H. injection H as <-. reflexivity.
    + destruct (lostPacketsPeriod (client w) >? 0); injection H as <-;
        reflexivity.
  - destruct (Close (client w)); [|discriminate]. cbn in H.
    injection H as <-. reflexivity.
Qed.

(** [flushLoop] returns only after the shutdown channel is closed. *)
Lemma run_flusher (F : float -> bytes) (es : list Event) (w w' : World) :
  controlled w ->
  (flushLoopRunning w = false -> closed (shutdown (client w)) = true) ->
  run F w es = Ok w' ->
  flushLoopRunning w' = false -> closed (shutdown (client w')) = true.
Proof.
  revert w. induction es as [|e es IH]; intros w Hc Hinv H; simpl in H.
  - injection H as <-. exact Hinv.
  - destruct (step F w e) as [w1|] eqn:E; [|discriminate]. cbn in H.
    destruct (step_controlled F _ _ _ Hc E) as (C1 & _ & C3 & _).
    apply (IH w1 C1); [|exact H].
    intros Hrun1.
    destruct (closed (shutdown (client w))) eqn:Eshut; [auto|].
    rewrite (step_running F _ _ _ Hc Eshut E) in Hrun1.
    apply Hinv in Hrun1. discriminate.
Qed.

Lemma emitLine_panic (c : Client) (line : bytes) (m : string) :
  emitLine c line = Panic m ->
  m = "send on closed channel"%string /\ closed (sendQueue c) = true.
Proof.
  intros H.
  destruct (Z_le_gt_dec (len (buf c) + len line) (MaxPacketSize (options c)))
    as [Hfit|Hover].
  - rewrite emitLine_fits in H by assumption. discriminate.
  - rewrite emitLine_overflow in H by assumption. unfold trySend in H.
    destruct (closed (sendQueue c)).
    + injection H as <-. split; reflexivity.
    + destruct (len (items (sendQueue c)) <? capacity (sendQueue c));
        discriminate.
Qed.

Lemma emitLines_panic (ls : list bytes) (c : Client) (m : string) :
  emitLines c ls = Panic m -> m = "send on closed channel"%string.
Proof.
  revert c. induction ls as [|l ls IH]; intros c H; simpl in H.
  - discriminate.
  - destruct (emitLine c l) as [c1|m1] eqn:E; cbn in H.
    + exact (IH _ H).
    + injection H as <-. apply emitLine_panic in E. tauto.
Qed.

(** X1: a client made by [NewClient] panics only after [Close] was
    entered.  While [shutdown] is open, every continuation without a call
    of [Close] runs to its end; the background loops alone never panic;
    and a step that panics is a second [Close] ([close of closed channel])
    or a metric method called after [flushLoop] has returned ([send on
    closed channel]). *)
Theorem panics_only_after_shutdown (F : float -> bytes) (D : Defaults)
  (addr : bytes) (opts : list Option_) (es : list Event) (w0 w : World) :
  NewClient D addr opts = Ok w0 ->
  run F w0 es = Ok w ->
  (closed (shutdown (client w)) = false ->
   forall es', ~ In CloseCall es' -> exists w', run F w es' = Ok w') /\
  (forall es',
     (forall e, In e es' -> e <> CloseCall /\ forall k, e <> Emit k) ->
     exists w', run F w es' = Ok w') /\
  (forall e m,
     step F w e = Panic m ->
     closed (shutdown (client w)) = true /\
     ((e = CloseCall /\ m = "close of closed channel"%string) \/
      ((exists k, e = Emit k) /\ flushLoopRunning w = false /\
       m = "send on closed channel"%string))).
Proof.
  intros H0 Hrun.
  pose proof (NewClient_controlled _ _ _ _ H0) as Hc0.
  destruct (NewClient_init _ _ _ _ H0) as (_ & _ & _ & _ & _ & Hrun0 & _).
  destruct (run_controlled F _ _ _ Hc0 Hrun) as (Hc & _).
  assert (Hfl : flushLoopRunning w = false ->
                closed (shutdown (client w)) = true).
  { apply (run_flusher F es w0 w Hc0); [|exact Hrun]. congruence. }
  split; [|split].
  - intros Hshut es'. clear Hrun. revert w Hc Hfl Hshut.
    induction es' as [|e es' IH]; intros w Hc Hfl Hshut Hes.
    + exists w. reflexivity.
    + assert (Hr : flushLoopRunning w = true).
      { destruct (flushLoopRunning w) eqn:Er; [reflexivity|].
        specialize (Hfl eq_refl). congruence. }
      assert (He : e <> CloseCall) by (intros ->; apply Hes; left; reflexivity).
      destruct (step_total F w e Hc) as (w1 & E); [tauto | auto |].
      destruct (step_controlled F _ _ _ Hc E) as (C1 & _ & _ & C4).
      pose proof (step_running F _ _ _ Hc Hshut E) as R1.
      destruct (IH w1 C1) as (w' & E').
      * rewrite R1, Hr. discriminate.
      * rewrite (C4 He). exact Hshut.
      * intros Hin. apply Hes. right. exact Hin.
      * exists w'. simpl. rewrite E. exact E'.
  - intros es'. clear Hrun Hfl. revert w Hc.
    induction es' as [|e es' IH]; intros w Hc Hes.
    + exists w. reflexivity.
    + destruct (Hes e (or_introl eq_refl)) as [He1 He2].
      destruct (step_total F w e Hc) as (w1 & E).
      * intros ->. congruence.
      * intros k ->. destruct (He2 k). reflexivity.
      * destruct (step_controlled F _ _ _ Hc E) as (C1 & _).
        destruct (IH w1 C1) as (w' & E').
        -- intros e' Hin. apply Hes. right. exact Hin.
        -- exists w'. simpl. rewrite E. exact E'.
  - intros e m Hp.
    destruct (closed (shutdown (client w))) eqn:Eshut.
    + split; [reflexivity|].
      destruct e as [k|inp|i inp|inp|].
      * right. split; [eauto|].
        destruct (flushLoopRunning w) eqn:Er.
        -- destruct (step_total F w (Emit k) Hc) as (w1 & E);
             [discriminate | intros; exact Er | congruence].
        -- split; [reflexivity|]. cbn in Hp. rewrite call_emitLines in Hp.
           destruct (emitLines (client w) (linesOf F (options (client w)) k))
             as [c'|m'] eqn:E; cbn in Hp; [discriminate|].
           injection Hp as <-. eapply emitLines_panic. exact E.
      * destruct (step_total F w (Flusher inp) Hc) as (w1 & E);
          [discriminate | discriminate | congruence].
      * destruct (step_total F w (Sender i inp) Hc) as (w1 & E);
          [discriminate | discriminate | congruence].
      * destruct (step_total F w (Reporter inp) Hc) as (w1 & E);
          [discriminate | discriminate | congruence].
      * left. split; [reflexivity|]. cbn in Hp.
        unfold Close, closeChan in Hp. rewrite Eshut in Hp. cbn in Hp.
        injection Hp as <-. reflexivity.
    + exfalso.
      assert (Hr : flushLoopRunning w = true).
      { destruct (flushLoopRunning w) eqn:Er; [reflexivity|].
        specialize (Hfl eq_refl). congruence. }
      destruct (step_total F w e Hc) as (w1 & E); [auto | auto | congruence].
Qed.

Lemma panics_only_after_shutdown_witness :
  NewClient sampleDefaults (B "127.0.0.1:8125") tightOpts = Ok world0 /\
  run sampleFormat world0 (firstn 3 sampleEvents) = Ok world1 /\
  closed (shutdown (client world1)) = false /\
  ~ In CloseCall sampleTicks /\
  exists w', run sampleFormat world1 sampleTicks = Ok w'.
Proof.
  assert (E0 : NewClient sampleDefaults (B "127.0.0.1:8125") tightOpts
               = Ok world0) by (vm_compute; reflexivity).
  assert (E1 : run sampleFormat world0 (firstn 3 sampleEvents) = Ok world1)
    by (vm_compute; reflexivity).
  assert (Hs : closed (shutdown (client world1)) = false)
    by (vm_compute; reflexivity).
  assert (Hes : ~ In CloseCall sampleTicks).
  { simpl. intros [H|[H|[H|[H|[H|[]]]]]]; discriminate H. }
  repeat (split; [assumption|]).
  destruct (panics_only_after_shutdown sampleFormat sampleDefaults
              (B "127.0.0.1:8125") tightOpts (firstn 3 sampleEvents)
              world0 world1 E0 E1) as (Hfree & _).
  exact (Hfree Hs sampleTicks Hes).
Defined.

(** ** Emissions after the shutdown *)

(** A step of a send loop takes packets from the front of the queue and
    adds none. *)
Lemma sendLoop_takes (w w' : World) (st st' : Worker) (inp : SendInput) :
  sendLoop w st inp = Ok (st', w') ->
  flushLoopRunning w' = flushLoopRunning w /\
  buf (client w') = buf (client w) /\
  exists taken,
    items (sendQueue (client w)) = taken ++ items (sendQueue (client w')).
Proof.
  intros H.
  destruct st, inp; cbn in H;
    try (injection H as <- <-; repeat split; exists []; reflexivity).
  - destruct err; injection H as <- <-; repeat split; exists []; reflexivity.
  - unfold tryRecv in H.
    destruct (items (sendQueue (client w))) as [|b rest] eqn:Eitems.
    + destruct (closed (sendQueue (client w))).
      * cbn in H. destruct (wgDone (client w)) as [c1|] eqn:E;
          [|discriminate].
        cbn in H. injection H as <- <-. apply wgDone_eq in E.
        destruct E as [-> _]. cbn. rewrite Eitems.
        repeat split. exists []. reflexivity.
      * injection H as <- <-. rewrite Eitems. repeat split.
        exists []. reflexivity.
    + destruct ((len b >? 0) && err).
      * injection H as <- <-. cbn. repeat split. exists [b]. reflexivity.
      * unfold bind in H.
        match type of H with
        | match ?r with _ => _ end = _ => destruct r as [c1|] eqn:E
        end; [|discriminate].
        injection H as <- <-. apply returnToPool_frame in E.
        destruct E as (_ & E1 & E2 & _). cbn. rewrite E1, E2.
        destruct (len b >? 0); cbn; repeat split; exists [b]; reflexivity.
  - destruct (ReconnectInterval (options (client w)) >? 0);
      injection H as <- <-; repeat split; exists []; reflexivity.
Qed.

Lemma step_after_shutdown (F : float -> bytes) (w w' : World) (e : Event) :
  controlled w -> flushLoopRunning w = false ->
  step F w e = Ok w' ->
  flushLoopRunning w' = false /\
  exists taken,
    items (sendQueue (client w)) = taken ++ items (sendQueue (client w')).
Proof.
  intros (Hpool & Hqueue & _) Hstop H. rewrite Hstop in Hqueue.
  destruct e as [k|inp|i inp|inp|]; cbn in H.
  - destruct (call F (client w) k) as [c'|] eqn:E; [|discriminate].
    cbn in H. injection H as <-. rewrite call_emitLines in E. cbn.
    rewrite (emitLines_closed _ _ _ E Hqueue).
    split; [exact Hstop | exists []; reflexivity].
  - unfold flushLoop in H. rewrite Hstop in H. injection H as <-.
    split; [exact Hstop | exists []; reflexivity].
  - destruct (nth_error (senders w) i) as [st|];
      [|injection H as <-; split; [exact Hstop | exists []; reflexivity]].
    destruct (sendLoop w st inp) as [[st' w1]|] eqn:E; [|discriminate].
    cbn in H. injection H as <-. cbn.
    destruct (sendLoop_takes _ _ _ _ _ E) as (E1 & _ & E3).
    split; [congruence | exact E3].
  - unfold reportLoop in H. destruct (reportLoopRunning w); cbn in H;
      [|injection H as <-; split; [exact Hstop | exists []; reflexivity]].
    destruct inp.
    + destruct (closed (shutdown (client w)));
        [|injection H as <-; split; [exact Hstop | exists []; reflexivity]].
      destruct (wgDone (client w)) as [c1|] eqn:E; [|discriminate].
      cbn in H. injection H as <-. apply wgDone_eq in E.
      destruct E as [-> _]. split; [exact Hstop | exists []; reflexivity].
    + destruct (lostPacketsPeriod (client w) >? 0); injection H as <-;
        (split; [exact Hstop | exists []; reflexivity]).
  - destruct (Close (client w)) as [c1|] eqn:E; [|discriminate].
    cbn in H. injection H as <-. unfold Close, closeChan in E.
    destruct (closed (shutdown (client w))); [discriminate|].
    injection E as <-. split; [exact Hstop | exists []; reflexivity].
Qed.

(** X2: once [flushLoop] has returned, a metric method that appends one
    line leaves it in the buffer when it fits and panics on the closed
    queue when it does not; from then on nothing is added to the queue:
    the queue only loses packets from its front. *)
Theorem emission_after_shutdown (F : float -> bytes) (D : Defaults)
  (addr : bytes) (opts : list Option_) (es : list Event) (w0 w : World) :
  NewClient D addr opts = Ok w0 ->
  run F w0 es = Ok w ->
  flushLoopRunning w = false ->
  (forall k line,
     linesOf F (options (client w)) k = [line] ->
     (len (buf (client w)) + len line <= MaxPacketSize (options (client w)) ->
      step F w (Emit k)
      = Ok (with_client w (with_buf (client w) (buf (client w) ++ line)))) /\
     (len (buf (client w)) + len line > MaxPacketSize (options (client w)) ->
      step F w (Emit k) = Panic "send on closed channel")) /\
  (forall es' w',
     run F w es' = Ok w' ->
     flushLoopRunning w' = false /\
     exists taken,
       items (sendQueue (client w))
       = taken ++ items (sendQueue (client w'))).
Proof.
  intros H0 Hrun Hstop.
  pose proof (NewClient_controlled _ _ _ _ H0) as Hc0.
  destruct (run_controlled F _ _ _ Hc0 Hrun) as (Hc & _).
  split.
  - intros k line Hk. cbn. rewrite call_emitLines, Hk, emitLines_one.
    destruct Hc as (_ & Hqueue & _). rewrite Hstop in Hqueue.
    split; intros Hlen.
    + rewrite emitLine_fits by exact Hlen. reflexivity.
    + rewrite emitLine_overflow by exact Hlen.
      unfold trySend. rewrite Hqueue. reflexivity.
  - intros es'. clear Hrun. revert w Hc Hstop.
    induction es' as [|e es' IH]; intros w Hc Hstop w' H; simpl in H.
    + injection H as <-. split; [exact Hstop | exists []; reflexivity].
    + destruct (step F w e) as [w1|] eqn:E; [|discriminate]. cbn in H.
      destruct (step_controlled F _ _ _ Hc E) as (C1 & _).
      destruct (step_after_shutdown F _ _ _ Hc Hstop E) as (S1 & t1 & S2).
      destruct (IH w1 C1 S1 w' H) as (S3 & t2 & S4).
      split; [exact S3|]. exists (t1 ++ t2).
      rewrite S2, S4, app_assoc. reflexivity.
Qed.

Lemma emission_after_shutdown_witness :
  NewClient sampleDefaults (B "127.0.0.1:8125") tightOpts = Ok world0 /\
  run sampleFormat world0 lifeEvents = Ok world3 /\
  flushLoopRunning world3 = false /\
  step sampleFormat world3 (Emit (CallIncr (B "req.count") 30))
  = Ok (with_client world3 (with_buf (client world3) countLine)) /\
  step sampleFormat world3
    (Emit (CallSetAdd (B "req.users") (B "7f3a9c21-5b1e-4c0d")))
  = Panic "send on closed channel".
Proof.
  assert (E0 : NewClient sampleDefaults (B "127.0.0.1:8125") tightOpts
               = Ok world0) by (vm_compute; reflexivity).
  assert (E1 : run sampleFormat world0 lifeEvents = Ok world3)
    by (vm_compute; reflexivity).
  assert (Hs : flushLoopRunning world3 = false) by (vm_compute; reflexivity).
  repeat (split; [assumption|]).
  destruct (emission_after_shutdown sampleFormat sampleDefaults
              (B "127.0.0.1:8125") tightOpts lifeEvents world0 world3
              E0 E1 Hs) as (Hemit & _).
  split.
  - destruct (Hemit (CallIncr (B "req.count") 30) countLine) as [Hfit _];
      [vm_compute; reflexivity|].
    apply Hfit. vm_compute. discriminate.
  - destruct (Hemit (CallSetAdd (B "req.users") (B "7f3a9c21-5b1e-4c0d"))
                (B "foo.req.users:7f3a9c21-5b1e-4c0d|s" ++ [newline]))
      as [_ Hover]; [vm_compute; reflexivity|].
    apply Hover. vm_compute. reflexivity.
Defined.

(** ** Nothing is lost while the loss counter stands *)

Lemma step_lineWorld (F : float -> bytes) (o : ClientOptions)
  (w w' : World) (e : Event) :
  lineWorld o w -> step F w e = Ok w' -> lineWorld o w'.
Proof.
  intros Hg H. unfold lineWorld in *.
  eapply (step_good F o wholeLines wholeLines
            (fun l => exists body, l = body ++ [newline]) (fun _ => True));
    try eassumption.
  - exists []. reflexivity.
  - intros l [body ->]. exists [body]. symmetry. apply terminated_one.
  - intros a l [bodies ->] [body ->] _. exists (bodies ++ [body]).
    rewrite terminated_app, terminated_one. reflexivity.
  - intros a l Ha _. exact Ha.
  - intros a Ha _. exact Ha.
  - intros. exact I.
  - apply Forall_forall. intros l Hin. destruct e; try contradiction.
    eapply linesOf_terminated. exact Hin.
Qed.

Lemma NewClient_lineWorld (D : Defaults) (addr : bytes)
  (opts : list Option_) (w0 : World) :
  NewClient D addr opts = Ok w0 ->
  lineWorld (options (client w0)) w0 /\ content w0 = [].
Proof.
  intros H0.
  destruct (NewClient_init _ _ _ _ H0) as (Hb & Hq & _ & _ & Hw & _).
  unfold lineWorld, goodWorld, goodClient, content.
  rewrite Hb, Hq, Hw. repeat split; auto. exists []. reflexivity.
Qed.

Lemma step_overall_bounds (F : float -> bytes) (w w' : World) (e : Event) :
  Int64.min_int <= lostPacketsOverall (client w) <= Int64.max_int - 2 ->
  step F w e = Ok w' ->
  lostPacketsOverall (client w) <= lostPacketsOverall (client w')
    <= lostPacketsOverall (client w) + 2.
Proof.
  intros Hr H. destruct e as [k|inp|i inp|inp|]; cbn in H.
  - destruct (call F (client w) k) as [c'|] eqn:E; [|discriminate].
    cbn in H. inv_ok. rewrite call_emitLines in E. cbn.
    pose proof (linesOf_length F (options (client w)) k).
    apply emitLines_overall in E; lia.
  - unfold flushLoop in H. destruct (flushLoopRunning w); cbn in H;
      [|inv_ok; lia].
    destruct inp.
    + destruct (closed (shutdown (client w))); [|inv_ok; lia].
      destruct (flushWhole (client w)) as [c1|] eqn:E; [|discriminate].
      cbn in H. unfold closeChan in H.
      destruct (closed (sendQueue c1)); cbn in H; inv_ok. cbn.
      destruct (flushWhole_overall _ _ E) as [->| ->]; [lia|].
      rewrite Int64_add_1; lia.
    + destruct (FlushInterval (options (client w)) >? 0); [|inv_ok; lia].
      destruct (flushWhole (client w)) as [c1|] eqn:E; [|discriminate].
      cbn in H. inv_ok. cbn.
      destruct (flushWhole_overall _ _ E) as [->| ->]; [lia|].
      rewrite Int64_add_1; lia.
  - destruct (nth_error (senders w) i) as [st|]; [|inv_ok; lia].
    destruct (sendLoop w st inp) as [[st' w1]|] eqn:E; [|discriminate].
    cbn in H. inv_ok. cbn. apply sendLoop_loss in E. destruct E as [_ E].
    lia.
  - unfold reportLoop in H. destruct (reportLoopRunning w); cbn in H;
      [|inv_ok; lia].
    destruct inp.
    + destruct (closed (shutdown (client w))); [|inv_ok; lia].
      destruct (wgDone (client w)) as [c1|] eqn:E; [|discriminate].
      cbn in H. inv_ok. cbn. apply wgDone_frame in E.
      destruct E as [[_ E] _]. lia.
    + break_match; inv_ok; cbn; lia.
  - unfold Close, closeChan in H.
    destruct (closed (shutdown (client w))); cbn in H; inv_ok. cbn. lia.
Qed.

Lemma len_cons {A : Type} (x : A) (l : list A) : len (x :: l) = 1 + len l.
Proof. unfold len. cbn [List.length]. lia. Qed.

Lemma run_overall_bounds (F : float -> bytes) (es : list Event)
  (w w' : World) :
  Int64.min_int <= lostPacketsOverall (client w) ->
  lostPacketsOverall (client w) + 2 * len es <= Int64.max_int ->
  run F w es = Ok w' ->
  lostPacketsOverall (client w) <= lostPacketsOverall (client w')
    <= lostPacketsOverall (client w) + 2 * len es.
Proof.
  revert w. induction es as [|e es IH]; intros w Hlo Hhi H; simpl in H.
  - inv_ok. unfold len in *. simpl in *. lia.
  - rewrite len_cons in *. pose proof (len_nonneg es).
    destruct (step F w e) as [w1|] eqn:E; [|discriminate]. cbn in H.
    apply step_overall_bounds in E; [|lia].
    apply IH in H; lia.
Qed.

Lemma emitLine_content (c c' : Client) (line : bytes) :
  emitLine c line = Ok c' ->
  Int64.min_int <= lostPacketsOverall c < Int64.max_int ->
  lostPacketsOverall c' = lostPacketsOverall c ->
  List.concat (items (sendQueue c')) ++ buf c'
  = (List.concat (items (sendQueue c)) ++ buf c) ++ line.
Proof.
  intros H Hr Hsame.
  destruct (Z_le_gt_dec (len (buf c) + len line) (MaxPacketSize (options c)))
    as [Hfit|Hover].
  - rewrite emitLine_fits in H by assumption. injection H as <-. cbn.
    rewrite app_assoc. reflexivity.
  - rewrite emitLine_overflow in H by assumption. unfold trySend in H.
    destruct (closed (sendQueue c)); [discriminate|].
    destruct (len (items (sendQueue c)) <? capacity (sendQueue c));
      injection H as <-; cbn in Hsame |- *.
    + rewrite concat_app. cbn. rewrite app_nil_r. reflexivity.
    + rewrite Int64_add_1 in Hsame; lia.
Qed.

Lemma emitLines_content (ls : list bytes) (c c' : Client) :
  emitLines c ls = Ok c' ->
  Int64.min_int <= lostPacketsOverall c ->
  lostPacketsOverall c + len ls <= Int64.max_int ->
  lostPacketsOverall c' = lostPacketsOverall c ->
  List.concat (items (sendQueue c')) ++ buf c'
  = (List.concat (items (sendQueue c)) ++ buf c) ++ List.concat ls.
Proof.
  revert c. induction ls as [|l ls IH]; intros c H Hlo Hhi Hsame; simpl in H.
  - inv_ok. cbn. rewrite app_nil_r. reflexivity.
  - rewrite len_cons in Hhi. pose proof (len_nonneg ls).
    destruct (emitLine c l) as [c1|] eqn:E1; [|discriminate]. cbn in H.
    assert (H1 : lostPacketsOverall c1 = lostPacketsOverall c).
    { destruct (emitLine_overall _ _ _ E1) as [->|E]; [reflexivity|].
      rewrite Int64_add_1 in E by lia.
      apply emitLines_overall in H; lia. }
    rewrite (IH c1 H); try lia.
    rewrite (emitLine_content _ _ _ E1); [|lia|exact H1].
    cbn [List.concat]. rewrite <- !app_assoc. reflexivity.
Qed.

Lemma flushWhole_content (c c' : Client) :
  flushWhole c = Ok c' ->
  Int64.min_int <= lostPacketsOverall c < Int64.max_int ->
  lostPacketsOverall c' = lostPacketsOverall c ->
  List.concat (items (sendQueue c')) ++ buf c'
  = List.concat (items (sendQueue c)) ++ buf c.
Proof.
  intros H Hr Hsame.
  destruct (buf c) as [|b rest] eqn:Eb.
  - rewrite flushWhole_empty in H by exact Eb. injection H as <-.
    rewrite Eb. reflexivity.
  - rewrite flushWhole_cases in H by congruence. unfold trySend in H.
    destruct (closed (sendQueue c)); [discriminate|].
    destruct (len (items (sendQueue c)) <? capacity (sendQueue c));
      injection H as <-; cbn in Hsame |- *.
    + rewrite concat_app, Eb. cbn. rewrite !app_nil_r. reflexivity.
    + rewrite Int64_add_1 in Hsame; lia.
Qed.


(** A step of a send loop that is not a failed write keeps the content:
    the packet it takes from the queue goes to the wire. *)
Lemma sendLoop_content (o : ClientOptions) (w w' : World) (st st' : Worker)
  (inp : SendInput) :
  lineWorld o w ->
  sendLoop w st inp = Ok (st', w') ->
  inp <> Recv true ->
  content w' = content w.
Proof.
  intros ((_ & _ & Hq) & _) H Hinp. unfold content.
  destruct st, inp; cbn in H;
    try (injection H as <- <-; reflexivity).
  - destruct err; injection H as <- <-; reflexivity.
  - destruct err; [congruence|]. unfold tryRecv in H.
    destruct (items (sendQueue (client w))) as [|b rest] eqn:Eitems.
    + destruct (closed (sendQueue (client w))).
      * cbn in H. destruct (wgDone (client w)) as [c1|] eqn:E;
          [|discriminate].
        cbn in H. injection H as <- <-. apply wgDone_eq in E.
        destruct E as [-> _]. cbn. rewrite Eitems. reflexivity.
      * injection H as <- <-. rewrite Eitems. reflexivity.
    + rewrite andb_false_r in H. unfold bind in H.
      match type of H with
      | match ?r with _ => _ end = _ => destruct r as [c1|] eqn:E
      end; [|discriminate].
      injection H as <- <-. apply returnToPool_frame in E.
      destruct E as (_ & E1 & E2 & _). cbn. rewrite E1, E2.
      inversion Hq as [|b' rest' Hb _]; subst.
      destruct (len b >? 0) eqn:Elen; cbn.
      * unfold terminated. rewrite map_app, concat_app. cbn [map List.concat].
        rewrite app_nil_r, slice_removelast.
        destruct (wholeLines_end b Hb) as [->|[front ->]];
          [discriminate|].
        rewrite removelast_last, <- !app_assoc. reflexivity.
      * assert (b = []) by (apply len_zero_nil; lia). subst b. reflexivity.
  - destruct (ReconnectInterval (options (client w)) >? 0);
      injection H as <- <-; reflexivity.
Qed.

Lemma step_content (F : float -> bytes) (o : ClientOptions)
  (w w' : World) (e : Event) :
  lineWorld o w ->
  step F w e = Ok w' ->
  (forall i, e <> Sender i (Recv true)) ->
  Int64.min_int <= lostPacketsOverall (client w) <= Int64.max_int - 2 ->
  lostPacketsOverall (client w') = lostPacketsOverall (client w) ->
  content w' = content w ++ List.concat (emitted F o e).
Proof.
  intros Hg H He Hr Hsame. pose proof Hg as ((Ho & _) & _).
  unfold content in *.
  destruct e as [k|inp|i inp|inp|]; cbn in H; cbn [emitted List.concat];
    rewrite ?app_nil_r.
  - destruct (call F (client w) k) as [c'|] eqn:E; [|discriminate].
    cbn in H. injection H as <-. rewrite call_emitLines, Ho in E. cbn in Hsame |- *.
    pose proof (linesOf_length F o k).
    rewrite (emitLines_content _ _ _ E); try lia.
    rewrite <- !app_assoc. reflexivity.
  - unfold flushLoop in H. destruct (flushLoopRunning w); cbn in H;
      [|injection H as <-; reflexivity].
    destruct inp.
    + destruct (closed (shutdown (client w)));
        [|injection H as <-; reflexivity].
      destruct (flushWhole (client w)) as [c1|] eqn:E; [|discriminate].
      cbn in H. unfold closeChan in H.
      destruct (closed (sendQueue c1)); cbn in H; [discriminate|].
      injection H as <-. cbn in Hsame |- *.
      rewrite (flushWhole_content _ _ E); [reflexivity | lia | exact Hsame].
    + destruct (FlushInterval (options (client w)) >? 0);
        [|injection H as <-; reflexivity].
      destruct (flushWhole (client w)) as [c1|] eqn:E; [|discriminate].
      cbn in H. injection H as <-. cbn in Hsame |- *.
      rewrite (flushWhole_content _ _ E); [reflexivity | lia | exact Hsame].
  - destruct (nth_error (senders w) i) as [st|];
      [|injection H as <-; reflexivity].
    destruct (sendLoop w st inp) as [[st' w1]|] eqn:E; [|discriminate].
    cbn in H. injection H as <-. cbn.
    apply (sendLoop_content o) in E; [exact E | exact Hg |].
    intros ->. apply (He i). reflexivity.
  - unfold reportLoop in H. destruct (reportLoopRunning w); cbn in H;
      [|injection H as <-; reflexivity].
    destruct inp.
    + destruct (closed (shutdown (client w)));
        [|injection H as <-; reflexivity].
      destruct (wgDone (client w)) as [c1|] eqn:E; [|discriminate].
      cbn in H. injection H as <-. apply wgDone_eq in E.
      destruct E as [-> _]. reflexivity.
    + destruct (lostPacketsPeriod (client w) >? 0); injection H as <-;
        reflexivity.
  - unfold Close, closeChan in H.
    destruct (closed (shutdown (client w))); cbn in H; [discriminate|].
    injection H as <-. reflexivity.
Qed.

Lemma run_content (F : float -> bytes) (o : ClientOptions)
  (es : list Event) (w w' : World) :
  lineWorld o w ->
  run F w es = Ok w' ->
  (forall i, ~ In (Sender i (Recv true)) es) ->
  Int64.min_int <= lostPacketsOverall (client w) ->
  lostPacketsOverall (client w) + 2 * len es <= Int64.max_int ->
  lostPacketsOverall (client w') = lostPacketsOverall (client w) ->
  content w' = content w ++ List.concat (flat_map (emitted F o) es).
Proof.
  revert w. induction es as [|e es IH];
    intros w Hg H Hes Hlo Hhi Hsame; simpl in H.
  - injection H as <-. cbn. rewrite app_nil_r. reflexivity.
  - rewrite len_cons in Hhi. pose proof (len_nonneg es).
    destruct (step F w e) as [w1|] eqn:E; [|discriminate]. cbn in H.
    assert (B1 : lostPacketsOverall (client w) <= lostPacketsOverall (client w1)
                 <= lostPacketsOverall (client w) + 2)
      by (apply (step_overall_bounds F w w1 e); [lia | exact E]).
    assert (B2 : lostPacketsOverall (client w1) <= lostPacketsOverall (client w'))
      by (apply (run_overall_bounds F es w1 w'); [lia | lia | exact H]).
    assert (H1 : lostPacketsOverall (client w1) = lostPacketsOverall (client w))
      by lia.
    rewrite (IH w1); try lia.
    + rewrite (step_content F o _ _ _ Hg E); try lia.
      * cbn [flat_map]. rewrite concat_app, <- !app_assoc. reflexivity.
      * intros i ->. apply (Hes i). left. reflexivity.
    + eapply step_lineWorld; eassumption.
    + exact H.
    + intros i Hin. apply (Hes i). right. exact Hin.
Qed.



(** ** The loss reports add up *)











(** ** A server that cannot be reached *)

Lemma setWorker_Forall (P : Worker -> Prop) (l : list Worker) (i : nat)
  (st : Worker) :
  Forall P l -> P st -> Forall P (setWorker l i st).
Proof.
  revert i. induction l as [|x l IH]; intros [|i] Hl Hst; simpl;
    inversion Hl; subst; constructor; auto.
Qed.

Lemma live_unconnected (l : list Worker) :
  Forall unconnected l -> live l = len l.
Proof.
  induction l as [|st l IH]; intros H; [reflexivity|].
  inversion H as [|? ? Hst Hl]; subst. rewrite len_cons. cbn [live].
  rewrite (IH Hl). destruct Hst as [-> | ->]; reflexivity.
Qed.

(** A send loop without a socket gets one only from a dial that
    succeeds; until then it writes nothing and does not return. *)
Lemma sendLoop_unconnected (w w' : World) (st st' : Worker)
  (inp : SendInput) :
  unconnected st -> inp <> Dial false ->
  sendLoop w st inp = Ok (st', w') ->
  unconnected st' /\ senders w' = senders w /\ wire w' = wire w /\
  client w' = client w.
Proof.
  unfold unconnected. intros [-> | ->] Hinp H;
    destruct inp as [[|]| |err|]; cbn in H; try congruence;
    injection H as <- <-; cbn; auto.
Qed.

Lemma step_unconnected (F : float -> bytes) (w w' : World) (e : Event) :
  Forall unconnected (senders w) ->
  (forall i, e <> Sender i (Dial false)) ->
  step F w e = Ok w' ->
  Forall unconnected (senders w') /\ wire w' = wire w.
Proof.
  intros Hs He H. destruct e as [k|inp|i inp|inp|]; cbn in H.
  - destruct (call F (client w) k); [|discriminate]. cbn in H.
    injection H as <-. auto.
  - unfold flushLoop in H. destruct (flushLoopRunning w); cbn in H;
      [|injection H as <-; auto].
    destruct inp.
    + destruct (closed (shutdown (client w))); [|injection H as <-; auto].
      destruct (flushWhole (client w)) as [c1|]; [|discriminate].
      cbn in H. destruct (closeChan (sendQueue c1)); [|discriminate].
      cbn in H. injection H as <-. auto.
    + destruct (FlushInterval (options (client w)) >? 0);
        [|injection H as <-; auto].
      destruct (flushWhole (client w)); [|discriminate]. cbn in H.
      injection H as <-. auto.
  - destruct (nth_error (senders w) i) as [st|] eqn:Enth;
      [|injection H as <-; auto].
    destruct (sendLoop w st inp) as [[st' w1]|] eqn:E; [|discriminate].
    cbn in H. injection H as <-. cbn.
    assert (Hst : unconnected st).
    { rewrite Forall_forall in Hs. apply Hs.
      eapply nth_error_In. exact Enth. }
    apply sendLoop_unconnected in E; [|exact Hst|].
    + destruct E as (E1 & E2 & E3 & _). rewrite E2, E3.
      split; [|reflexivity]. apply setWorker_Forall; assumption.
    + intros ->. apply (He i). reflexivity.
  - unfold reportLoop in H. destruct (reportLoopRunning w); cbn in H;
      [|injection H as <-; auto].
    destruct inp.
    + destruct (closed (shutdown (client w))); [|injection H as <-; auto].
      destruct (wgDone (client w)); [|discriminate]. cbn in H.
      injection H as <-. auto.
    + destruct (lostPacketsPeriod (client w) >? 0); injection H as <-; auto.
  - destruct (Close (client w)); [|discriminate]. cbn in H.
    injection H as <-. auto.
Qed.

(** X5: while no dial succeeds, the workers of [sendLoop] go between
    their labels RECONNECT and WAIT: nothing is written, and no worker
    answers the shutdown, so the wait group that [Close] waits for does
    not reach zero, whether [Close] was called or not. *)
Theorem unreachable_server_blocks_Close (F : float -> bytes) (D : Defaults)
  (addr : bytes) (opts : list Option_) (es : list Event) (w0 w : World) :
  NewClient D addr opts = Ok w0 ->
  0 < SendLoopCount (options (client w0)) ->
  (forall i, ~ In (Sender i (Dial false)) es) ->
  run F w0 es = Ok w ->
  Forall unconnected (senders w) /\
  wire w = [] /\
  CloseReturns (client w) = false.
Proof.
  intros H0 Hn Hes Hrun.
  pose proof (NewClient_controlled _ _ _ _ H0) as Hc0.
  destruct (NewClient_init _ _ _ _ H0)
    as (_ & _ & _ & _ & Hw0 & _ & Hs0 & _).
  destruct (run_controlled F _ _ _ Hc0 Hrun) as ((_ & _ & Hwg & _) & Hlen & _).
  assert (Hu0 : Forall unconnected (senders w0)).
  { rewrite Hs0. apply Forall_forall. intros st Hin.
    apply repeat_spec in Hin. left. exact Hin. }
  assert (Hinv : Forall unconnected (senders w) /\ wire w = wire w0).
  { clear Hwg Hlen Hc0 Hs0 Hw0 H0 Hn. revert w0 Hu0 Hes Hrun.
    induction es as [|e es IH]; intros w0 Hu0 Hes Hrun; simpl in Hrun.
    - injection Hrun as <-. auto.
    - destruct (step F w0 e) as [w1|] eqn:E; [|discriminate]. cbn in Hrun.
      assert (He : forall i, e <> Sender i (Dial false))
        by (intros i ->; apply (Hes i); left; reflexivity).
      destruct (step_unconnected F w0 w1 e Hu0 He E) as [U1 W1].
      destruct (IH w1 U1) as [U2 W2]; [|exact Hrun|].
      + intros i Hin. apply (Hes i). right. exact Hin.
      + split; [exact U2 | congruence]. }
  destruct Hinv as [Hu Hw]. split; [exact Hu|]. split; [congruence|].
  unfold CloseReturns. apply Z.eqb_neq.
  rewrite Hwg, (live_unconnected _ Hu), Hlen, Hs0.
  unfold len. rewrite repeat_length.
  destruct (reportLoopRunning w); lia.
Qed.

Lemma unreachable_server_blocks_Close_witness :
  exists w,
    NewClient sampleDefaults (B "127.0.0.1:8125") tightOpts = Ok world0 /\
    0 < SendLoopCount (options (client world0)) /\
    (forall i, ~ In (Sender i (Dial false)) strandedEvents) /\
    run sampleFormat world0 strandedEvents = Ok w /\
    senders w = [RECONNECT] /\
    items (sendQueue (client w)) = [countLine] /\
    closed (sendQueue (client w)) = true /\
    reportLoopRunning w = false /\
    wire w = [] /\
    CloseReturns (client w) = false.
Proof.
  assert (E0 : NewClient sampleDefaults (B "127.0.0.1:8125") tightOpts
               = Ok world0) by (vm_compute; reflexivity).
  assert (Hn : 0 < SendLoopCount (options (client world0)))
    by (vm_compute; reflexivity).
  assert (Hes : forall i, ~ In (Sender i (Dial false)) strandedEvents).
  { intros i. simpl.
    intros [H|[H|[H|[H|[H|[H|[H|[H|[H|[]]]]]]]]]]; discriminate H. }
  assert (E : exists w, run sampleFormat world0 strandedEvents = Ok w /\
                        senders w = [RECONNECT] /\
                        items (sendQueue (client w)) = [countLine] /\
                        closed (sendQueue (client w)) = true /\
                        reportLoopRunning w = false)
    by (vm_compute; eexists; repeat split; reflexivity).
  destruct E as (w & E & Hs & Hq & Hcl & Hrep).
  exists w. repeat (split; [assumption|]).
  destruct (unreachable_server_blocks_Close sampleFormat sampleDefaults
              (B "127.0.0.1:8125") tightOpts strandedEvents world0 w
              E0 Hn Hes E) as (_ & Hw & Hret).
  split; assumption.
Defined.

(** ** Close returns when the server can be reached *)

Lemma run_app (F : float -> bytes) (a b : list Event) (w : World) :
  run F w (a ++ b) = (w1 <- run F w a ;; run F w1 b).
Proof.
  revert w. induction a as [|e a IH]; intros w; [reflexivity|].
  cbn [app run]. destruct (step F w e) as [w1|]; [|reflexivity].
  cbn. apply IH.
Qed.

Lemma setWorker_same (l : list Worker) (i : nat) (st : Worker) :
  nth_error l i = Some st -> setWorker l i st = l.
Proof.
  revert i. induction l as [|x l IH]; intros [|i] H; simpl in *;
    try discriminate.
  - injection H as ->. reflexivity.
  - rewrite (IH _ H). reflexivity.
Qed.

Lemma setWorker_twice (l : list Worker) (i : nat) (a b : Worker) :
  setWorker (setWorker l i a) i b = setWorker l i b.
Proof.
  revert i. induction l as [|x l IH]; intros [|i]; simpl; auto.
  rewrite IH. reflexivity.
Qed.

Lemma nth_error_setWorker_other (l : list Worker) (i j : nat) (st : Worker) :
  j <> i -> nth_error (setWorker l i st) j = nth_error l j.
Proof.
  revert i j. induction l as [|x l IH]; intros [|i] [|j] H; simpl; auto.
  congruence.
Qed.

(** What a step of the [i]-th send loop does to the world around it. *)
Lemma step_Sender (F : float -> bytes) (w w' : World) (i : nat)
  (inp : SendInput) (st : Worker) :
  controlled w ->
  nth_error (senders w) i = Some st ->
  step F w (Sender i inp) = Ok w' ->
  exists st' w1,
    sendLoop w st inp = Ok (st', w1) /\
    senders w' = setWorker (senders w) i st' /\
    client w' = client w1 /\
    flushLoopRunning w' = flushLoopRunning w /\
    reportLoopRunning w' = reportLoopRunning w /\
    shutdown (client w') = shutdown (client w).
Proof.
  intros (Hpool & _) Enth H. cbn in H. rewrite Enth in H.
  destruct (sendLoop w st inp) as [[st' w1]|] eqn:E; [|discriminate].
  cbn in H. injection H as <-. exists st', w1. cbn.
  destruct (sendLoop_control _ _ _ _ _ Hpool E)
    as (S1 & S2 & S3 & _ & _ & S6 & _).
  rewrite S2. repeat split; assumption.
Qed.

(** After the sleep and a dial that succeeds, a send loop that has not
    returned is in its receiving loop; nothing else has changed. *)
Lemma connect_worker (F : float -> bytes) (n : nat) (w : World) (i : nat)
  (st : Worker) :
  draining n w ->
  nth_error (senders w) i = Some st ->
  exists w',
    run F w [Sender i Slept; Sender i (Dial false)] = Ok w' /\
    draining n w' /\
    senders w'
    = setWorker (senders w) i (if exited st then EXITED else READY) /\
    shutdown (client w') = shutdown (client w).
Proof.
  intros (Hc & Hf & Hr & Hn) Enth.
  assert (E : run F w [Sender i Slept; Sender i (Dial false)]
    = Ok (mkWorld (client w) (flushLoopRunning w)
            (setWorker (senders w) i (if exited st then EXITED else READY))
            (reportLoopRunning w) (wire w) (logged w))).
  { cbn. rewrite Enth.
    destruct st; cbn; erewrite nth_error_setWorker by eassumption; cbn;
      rewrite setWorker_twice; reflexivity. }
  eexists. split; [exact E|].
  destruct (run_controlled F _ _ _ Hc E) as (Hc' & _).
  split; [|split; reflexivity].
  unfold draining. split; [exact Hc'|]. cbn. auto.
Qed.

Lemma run_repeat_same (F : float -> bytes) (w : World) (e : Event)
  (n : nat) :
  step F w e = Ok w -> run F w (repeat e n) = Ok w.
Proof.
  intros H. induction n as [|n IH]; [reflexivity|].
  cbn [repeat run]. rewrite H. exact IH.
Qed.

(** A send loop that has returned takes no step. *)
Lemma step_exited (F : float -> bytes) (w : World) (i : nat)
  (inp : SendInput) :
  nth_error (senders w) i = Some EXITED ->
  step F w (Sender i inp) = Ok w.
Proof.
  intros Enth. cbn. rewrite Enth.
  assert (E : sendLoop w EXITED inp = Ok (EXITED, w))
    by (destruct inp; reflexivity).
  rewrite E. cbn. rewrite (setWorker_same _ _ _ Enth).
  destruct w; reflexivity.
Qed.

(** One receive of a connected send loop on the closed queue: it returns
    when the queue is empty, and takes the first packet when it is not. *)
Lemma step_Recv_closed (F : float -> bytes) (n : nat) (w : World) (i : nat) :
  draining n w ->
  nth_error (senders w) i = Some READY ->
  exists w',
    step F w (Sender i (Recv false)) = Ok w' /\
    shutdown (client w') = shutdown (client w) /\
    ((items (sendQueue (client w)) = [] /\ draining n w' /\
      senders w' = setWorker (senders w) i EXITED) \/
     (exists n', n = S n' /\ draining n' w' /\
      senders w' = setWorker (senders w) i READY)).
Proof.
  intros (Hc & Hf & Hr & Hn) Enth.
  destruct (step_total F w (Sender i (Recv false)) Hc) as (w' & E);
    [discriminate | discriminate |].
  exists w'. split; [exact E|].
  destruct (step_controlled F _ _ _ Hc E) as (Hc' & _).
  destruct (step_Sender F _ _ _ _ _ Hc Enth E)
    as (st' & w1 & E1 & S1 & S2 & S3 & S4 & S5).
  split; [exact S5|].
  assert (Hclosed : closed (sendQueue (client w)) = true).
  { destruct Hc as (_ & Hq & _). rewrite Hq, Hf. reflexivity. }
  cbn in E1. unfold tryRecv in E1. rewrite Hclosed in E1.
  destruct (items (sendQueue (client w))) as [|b rest] eqn:Eitems.
  - left. cbn in E1. destruct (wgDone (client w)) as [c1|] eqn:Ew;
      [|discriminate].
    cbn in E1. injection E1 as <- <-. apply wgDone_eq in Ew.
    destruct Ew as [-> _]. split; [reflexivity|]. split; [|exact S1].
    unfold draining. split; [exact Hc'|].
    rewrite S2, S3, S4. cbn. rewrite Eitems. auto.
  - right. destruct n as [|n']; [simpl in Hn; lia|]. exists n'.
    split; [reflexivity|]. rewrite andb_false_r in E1. unfold bind in E1.
    match type of E1 with
    | match ?r with _ => _ end = _ => destruct r as [c1|] eqn:Ep
    end; [|discriminate].
    injection E1 as <- <-. apply returnToPool_frame in Ep.
    destruct Ep as (_ & Eq & _). split; [|exact S1].
    unfold draining. split; [exact Hc'|].
    rewrite S2, S3, S4. cbn. rewrite Eq.
    destruct (len b >? 0); cbn; simpl in Hn; repeat split; auto; lia.
Qed.

(** Receiving once more than there are packets takes a connected send
    loop to its return. *)
Lemma recv_drain (F : float -> bytes) (i : nat) (n : nat) :
  forall (w : World) (st : Worker),
    draining n w ->
    nth_error (senders w) i = Some st ->
    st = READY \/ st = EXITED ->
    exists w',
      run F w (repeat (Sender i (Recv false)) (S n)) = Ok w' /\
      draining n w' /\
      senders w' = setWorker (senders w) i EXITED /\
      shutdown (client w') = shutdown (client w).
Proof.
  induction n as [|n IH]; intros w st Hd Enth [-> | ->].
  - destruct (step_Recv_closed F _ _ _ Hd Enth)
      as (w' & E & Hs & [(_ & Hd' & Hw)|(n' & Hn & _)]); [|discriminate].
    exists w'. cbn [repeat run]. rewrite E. cbn. auto.
  - exists w. rewrite run_repeat_same by (apply step_exited; exact Enth).
    rewrite (setWorker_same _ _ _ Enth). auto.
  - destruct (step_Recv_closed F _ _ _ Hd Enth)
      as (w1 & E & Hs & [(_ & Hd1 & Hw1)|(n' & Hn & Hd1 & Hw1)]).
    + exists w1.
      change (repeat (Sender i (Recv false)) (S (S n)))
        with (Sender i (Recv false) :: repeat (Sender i (Recv false)) (S n)).
      cbn [run]. rewrite E. cbn [bind].
      rewrite run_repeat_same; [auto|].
      apply step_exited. rewrite Hw1.
      eapply nth_error_setWorker. exact Enth.
    + injection Hn as <-.
      destruct (IH w1 READY Hd1) as (w' & E' & Hd' & Hw' & Hs'); [|auto|].
      * rewrite Hw1. eapply nth_error_setWorker. exact Enth.
      * exists w'.
        change (repeat (Sender i (Recv false)) (S (S n)))
          with (Sender i (Recv false)
                :: repeat (Sender i (Recv false)) (S n)).
        cbn [run]. rewrite E. cbn [bind]. split; [exact E'|].
        split.
        -- destruct Hd' as (D1 & D2 & D3 & D4).
           split; [exact D1|]. repeat split; auto.
        -- rewrite Hw', Hw1, setWorker_twice. split; [reflexivity|].
           congruence.
  - exists w. rewrite run_repeat_same by (apply step_exited; exact Enth).
    rewrite (setWorker_same _ _ _ Enth). auto.
Qed.

Lemma drain_worker (F : float -> bytes) (n : nat) (w : World) (i : nat)
  (st : Worker) :
  draining n w ->
  nth_error (senders w) i = Some st ->
  exists w',
    run F w (drainWorker n i) = Ok w' /\
    draining n w' /\
    senders w' = setWorker (senders w) i EXITED /\
    shutdown (client w') = shutdown (client w).
Proof.
  intros Hd Enth.
  destruct (connect_worker F n w i st Hd Enth) as (w1 & E1 & Hd1 & Hw1 & Hs1).
  destruct (recv_drain F i n w1 (if exited st then EXITED else READY) Hd1)
    as (w' & E' & Hd' & Hw' & Hs').
  - rewrite Hw1. eapply nth_error_setWorker. exact Enth.
  - destruct (exited st); auto.
  - exists w'. split.
    + change (drainWorker n i)
        with ([Sender i Slept; Sender i (Dial false)]
              ++ repeat (Sender i (Recv false)) (S n)).
      rewrite run_app, E1. exact E'.
    + split; [exact Hd'|]. rewrite Hw', Hw1, setWorker_twice.
      split; [reflexivity | congruence].
Qed.

Lemma all_exited (l : list Worker) :
  (forall j, (j < List.length l)%nat -> nth_error l j = Some EXITED) ->
  Forall (fun st => st = EXITED) l.
Proof.
  induction l as [|x l IH]; intros H; [constructor|].
  constructor.
  - specialize (H 0%nat). simpl in H.
    assert (E : Some x = Some EXITED) by (apply H; lia).
    injection E as ->. reflexivity.
  - apply IH. intros j Hj. apply (H (S j)). simpl. lia.
Qed.

Lemma drain_all (F : float -> bytes) (n : nat) (k : nat) :
  forall (s : nat) (w : World),
    draining n w ->
    (s + k)%nat = List.length (senders w) ->
    (forall j, (j < s)%nat -> nth_error (senders w) j = Some EXITED) ->
    exists w',
      run F w (flat_map (drainWorker n) (seq s k)) = Ok w' /\
      draining n w' /\
      Forall (fun st => st = EXITED) (senders w') /\
      List.length (senders w') = List.length (senders w).
Proof.
  induction k as [|k IH]; intros s w Hd Hlen Hdone.
  - exists w. split; [reflexivity|]. split; [exact Hd|].
    split; [|reflexivity]. apply all_exited. intros j Hj. apply Hdone. lia.
  - destruct (nth_error (senders w) s) as [st|] eqn:Enth.
    2:{ apply nth_error_None in Enth. lia. }
    destruct (drain_worker F n w s st Hd Enth) as (w1 & E1 & Hd1 & Hw1 & Hs1).
    destruct (IH (S s) w1 Hd1) as (w' & E' & Hd' & Hall & Hs').
    + rewrite Hw1, length_setWorker. lia.
    + intros j Hj. rewrite Hw1.
      destruct (Nat.eq_dec j s) as [->|Hne].
      * eapply nth_error_setWorker. exact Enth.
      * rewrite nth_error_setWorker_other by exact Hne. apply Hdone. lia.
    + exists w'. cbn [seq flat_map]. rewrite run_app, E1. cbn [bind].
      split; [exact E'|]. split; [exact Hd'|]. split; [exact Hall|].
      rewrite Hs', Hw1, length_setWorker. reflexivity.
Qed.

Lemma flushWhole_queue (c c' : Client) :
  flushWhole c = Ok c' ->
  (List.length (items (sendQueue c'))
   <= S (List.length (items (sendQueue c))))%nat.
Proof.
  intros H.
  destruct (buf c) as [|b rest] eqn:Eb.
  - rewrite flushWhole_empty in H by exact Eb. injection H as <-. lia.
  - rewrite flushWhole_cases in H by congruence. unfold trySend in H.
    destruct (closed (sendQueue c)); [discriminate|].
    destruct (len (items (sendQueue c)) <? capacity (sendQueue c));
      injection H as <-; cbn; rewrite ?length_app; simpl; lia.
Qed.

Lemma live_exited (l : list Worker) :
  Forall (fun st => st = EXITED) l -> live l = 0.
Proof.
  induction l as [|st l IH]; intros H; [reflexivity|].
  inversion H; subst. cbn [live exited]. rewrite IH by assumption.
  reflexivity.
Qed.

(** The two loops on the shutdown channel take the shutdown case. *)
Lemma loops_shut_down (F : float -> bytes) (w : World) :
  controlled w ->
  closed (shutdown (client w)) = true ->
  exists w',
    run F w [Flusher FlushShutdown; Reporter ReportShutdown] = Ok w' /\
    draining (S (List.length (items (sendQueue (client w))))) w' /\
    senders w' = senders w /\
    shutdown (client w') = shutdown (client w).
Proof.
  intros Hc Hshut.
  destruct (step_total F w (Flusher FlushShutdown) Hc) as (w1 & E1);
    [discriminate | discriminate |].
  destruct (step_controlled F _ _ _ Hc E1) as (Hc1 & _ & Hs1 & Hk1).
  destruct (step_total F w1 (Reporter ReportShutdown) Hc1) as (w2 & E2);
    [discriminate | discriminate |].
  destruct (step_controlled F _ _ _ Hc1 E2) as (Hc2 & _ & _ & Hk2).
  exists w2. split; [cbn [run]; rewrite E1; cbn [bind]; rewrite E2; reflexivity|].
  assert (P1 : flushLoopRunning w1 = false /\ senders w1 = senders w /\
               (List.length (items (sendQueue (client w1)))
                <= S (List.length (items (sendQueue (client w)))))%nat).
  { cbn in E1. unfold flushLoop in E1.
    destruct (flushLoopRunning w) eqn:Er; cbn in E1.
    - rewrite Hshut in E1.
      destruct (flushWhole (client w)) as [c1|] eqn:Ef; [|discriminate].
      cbn in E1. unfold closeChan in E1.
      destruct (closed (sendQueue c1)); cbn in E1; [discriminate|].
      injection E1 as <-. cbn. apply flushWhole_queue in Ef. auto.
    - injection E1 as <-. auto. }
  destruct P1 as (F1 & S1 & Q1).
  assert (P2 : reportLoopRunning w2 = false /\ senders w2 = senders w1 /\
               flushLoopRunning w2 = flushLoopRunning w1 /\
               sendQueue (client w2) = sendQueue (client w1)).
  { cbn in E2. unfold reportLoop in E2.
    destruct (reportLoopRunning w1) eqn:Er; cbn in E2.
    - rewrite (Hs1 Hshut) in E2.
      destruct (wgDone (client w1)) as [c1|] eqn:Ew; [|discriminate].
      cbn in E2. injection E2 as <-. apply wgDone_eq in Ew.
      destruct Ew as [-> _]. cbn. auto.
    - injection E2 as <-. auto. }
  destruct P2 as (R2 & S2 & F2 & Q2).
  split; [|split; [congruence|]].
  - unfold draining. split; [exact Hc2|]. rewrite F2, Q2. auto.
  - rewrite Hk2, Hk1 by discriminate. reflexivity.
Qed.

(** X6: after [Close] was entered, the wait of [Close] ends once every
    loop has had its turns: when [flushLoop] and [reportLoop] take the
    shutdown and every worker connects and receives until the queue is
    drained ([shutdownSchedule]), nothing panics, all workers have
    returned, both loops have returned, the wait group is at zero and the
    queue is empty. *)
Theorem Close_returns_when_workers_connect (F : float -> bytes)
  (D : Defaults) (addr : bytes) (opts : list Option_) (es : list Event)
  (w0 w : World) :
  NewClient D addr opts = Ok w0 ->
  run F w0 es = Ok w ->
  closed (shutdown (client w)) = true ->
  exists w',
    run F w (shutdownSchedule
               (List.length (senders w))
               (S (List.length (items (sendQueue (client w))))))
    = Ok w' /\
    CloseReturns (client w') = true /\
    Forall (fun st => st = EXITED) (senders w') /\
    flushLoopRunning w' = false /\
    reportLoopRunning w' = false /\
    (senders w <> [] -> items (sendQueue (client w')) = []).
Proof.
  intros H0 Hrun Hshut.
  pose proof (NewClient_controlled _ _ _ _ H0) as Hc0.
  destruct (run_controlled F _ _ _ Hc0 Hrun) as (Hc & _).
  destruct (loops_shut_down F w Hc Hshut) as (w1 & E1 & Hd1 & Hs1 & _).
  destruct (drain_all F (S (List.length (items (sendQueue (client w)))))
              (List.length (senders w)) 0%nat w1 Hd1)
    as (w' & E' & (Hc' & Hf' & Hr' & _) & Hall & Hlen').
  - rewrite Hs1. reflexivity.
  - intros j Hj. lia.
  - exists w'. split.
    + change (shutdownSchedule (List.length (senders w))
                (S (List.length (items (sendQueue (client w))))))
        with ([Flusher FlushShutdown; Reporter ReportShutdown]
              ++ flat_map
                   (drainWorker (S (List.length (items (sendQueue (client w))))))
                   (seq 0 (List.length (senders w)))).
      rewrite run_app, E1. exact E'.
    + destruct Hc' as (_ & _ & Hwg & Hexit).
      pose proof (live_exited _ Hall) as Hlive.
      split; [unfold CloseReturns; rewrite Hwg, Hlive, Hr'; reflexivity|].
      repeat (split; [assumption|]).
      intros Hne. apply Hexit. rewrite Hlive. unfold len.
      rewrite Hlen', Hs1. destruct (senders w); [congruence | simpl; lia].
Qed.

Lemma Close_returns_when_workers_connect_witness :
  NewClient sampleDefaults (B "127.0.0.1:8125") tightOpts = Ok world0 /\
  run sampleFormat world0 closeEvents = Ok world2 /\
  closed (shutdown (client world2)) = true /\
  CloseReturns (client world2) = false /\
  exists w',
    run sampleFormat world2 (shutdownSchedule 1 3) = Ok w' /\
    CloseReturns (client w') = true /\
    senders w' = [EXITED] /\
    items (sendQueue (client w')) = [].
Proof.
  assert (E0 : NewClient sampleDefaults (B "127.0.0.1:8125") tightOpts
               = Ok world0) by (vm_compute; reflexivity).
  assert (E1 : run sampleFormat world0 closeEvents = Ok world2)
    by (vm_compute; reflexivity).
  assert (Hs : closed (shutdown (client world2)) = true)
    by (vm_compute; reflexivity).
  assert (Hr : CloseReturns (client world2) = false)
    by (vm_compute; reflexivity).
  repeat (split; [assumption|]).
  destruct (Close_returns_when_workers_connect sampleFormat sampleDefaults
              (B "127.0.0.1:8125") tightOpts closeEvents world0 world2
              E0 E1 Hs) as (w' & E & Hret & Hall & _ & _ & Hq).
  exists w'. split; [exact E|]. split; [exact Hret|].
  split.
  - vm_compute in E. injection E as <-. reflexivity.
  - apply Hq. vm_compute. discriminate.
Defined.

(** ** Queue and pool stay within their capacities *)

Lemma len_snoc {A : Type} (l : list A) (x : A) : len (l ++ [x]) = len l + 1.
Proof. rewrite len_app. reflexivity. Qed.

Lemma popPool_bounded (p : chan bytes) (n : Z) :
  capacity p = n -> len (items p) <= n ->
  capacity (popPool p) = n /\ len (items (popPool p)) <= n.
Proof.
  intros Hc Hl. unfold popPool, tryRecv.
  destruct (items p) as [|b rest] eqn:E.
  - destruct (closed p); rewrite E; auto.
  - cbn. rewrite len_cons in Hl. split; [exact Hc | lia].
Qed.

Lemma flushBuf_bounded (q p : Z) (c c' : Client) (n : Z) :
  bounded q p c -> flushBuf c n = Ok c' -> bounded q p c'.
Proof.
  intros (Q1 & Q2 & P1 & P2) H.
  assert (Hn : 0 <= n <= len (buf c)).
  { unfold flushBuf in H.
    destruct (n <? 0) eqn:E1; [discriminate|].
    destruct (len (buf c) <? n) eqn:E2; [discriminate|]. lia. }
  destruct (slice_from (buf c) n Hn) as [Hsplit Hpre].
  pose proof (flushBuf_cases c _ _ Hsplit) as E.
  rewrite Hpre, H in E. unfold trySend in E.
  destruct (popPool_bounded _ _ P1 P2) as [P1' P2'].
  destruct (closed (sendQueue c)); [discriminate|].
  destruct (len (items (sendQueue c)) <? capacity (sendQueue c)) eqn:Er;
    injection E as ->; unfold bounded; cbn; rewrite ?len_snoc;
    repeat split; auto; lia.
Qed.

Lemma emitLine_bounded (q p : Z) (c c' : Client) (line : bytes) :
  bounded q p c -> emitLine c line = Ok c' -> bounded q p c'.
Proof.
  unfold emitLine, checkBuf. intros Hb H. break_match.
  - eapply flushBuf_bounded; [|exact H]. exact Hb.
  - injection H as <-. exact Hb.
Qed.

Lemma emitLines_bounded (q p : Z) (ls : list bytes) (c c' : Client) :
  bounded q p c -> emitLines c ls = Ok c' -> bounded q p c'.
Proof.
  revert c. induction ls as [|l ls IH]; intros c Hb H; simpl in H.
  - injection H as <-. exact Hb.
  - destruct (emitLine c l) as [c1|] eqn:E1; [|discriminate]. cbn in H.
    eapply IH; [|exact H]. eapply emitLine_bounded; eassumption.
Qed.

Lemma flushWhole_bounded (q p : Z) (c c' : Client) :
  bounded q p c -> flushWhole c = Ok c' -> bounded q p c'.
Proof.
  unfold flushWhole. intros Hb H. break_match.
  - eapply flushBuf_bounded; eassumption.
  - injection H as <-. exact Hb.
Qed.

Lemma sendLoop_bounded (q p : Z) (w w' : World) (st st' : Worker)
  (inp : SendInput) :
  bounded q p (client w) -> sendLoop w st inp = Ok (st', w') ->
  bounded q p (client w').
Proof.
  intros Hb H. pose proof Hb as (Q1 & Q2 & P1 & P2).
  destruct st, inp; cbn in H; try (injection H as <- <-; exact Hb).
  - destruct err; injection H as <- <-; exact Hb.
  - unfold tryRecv in H.
    destruct (items (sendQueue (client w))) as [|b rest] eqn:Eitems.
    + destruct (closed (sendQueue (client w))).
      * cbn in H. destruct (wgDone (client w)) as [c1|] eqn:E;
          [|discriminate].
        cbn in H. injection H as <- <-. apply wgDone_eq in E.
        destruct E as [-> _]. exact Hb.
      * injection H as <- <-. exact Hb.
    + rewrite len_cons in Q2.
      destruct ((len b >? 0) && err).
      * injection H as <- <-. unfold bounded. cbn. repeat split; auto; lia.
      * unfold bind in H.
        match type of H with
        | match ?r with _ => _ end = _ => destruct r as [c1|] eqn:E
        end; [|discriminate].
        injection H as <- <-. unfold returnToPool, trySend in E.
        destruct (len b >? 0); cbn in E;
          destruct (closed (bufPool (client w))); try discriminate;
          destruct (len (items (bufPool (client w)))
                    <? capacity (bufPool (client w))) eqn:Er;
          injection E as <-; unfold bounded; cbn; rewrite ?len_snoc;
          repeat split; auto; lia.
  - destruct (ReconnectInterval (options (client w)) >? 0);
      injection H as <- <-; exact Hb.
Qed.

Lemma step_bounded (F : float -> bytes) (q p : Z) (w w' : World)
  (e : Event) :
  bounded q p (client w) -> step F w e = Ok w' -> bounded q p (client w').
Proof.
  intros Hb H. destruct e as [k|inp|i inp|inp|]; cbn in H.
  - destruct (call F (client w) k) as [c'|] eqn:E; [|discriminate].
    cbn in H. injection H as <-. rewrite call_emitLines in E.
    eapply emitLines_bounded; eassumption.
  - unfold flushLoop in H. destruct (flushLoopRunning w); cbn in H;
      [|injection H as <-; exact Hb].
    destruct inp.
    + destruct (closed (shutdown (client w)));
        [|injection H as <-; exact Hb].
      destruct (flushWhole (client w)) as [c1|] eqn:E; [|discriminate].
      cbn in H. unfold closeChan in H.
      destruct (closed (sendQueue c1)); cbn in H; [discriminate|].
      injection H as <-. apply (flushWhole_bounded q p) in E; [|exact Hb].
      exact E.
    + destruct (FlushInterval (options (client w)) >? 0);
        [|injection H as <-; exact Hb].
      destruct (flushWhole (client w)) as [c1|] eqn:E; [|discriminate].
      cbn in H. injection H as <-.
      eapply flushWhole_bounded; eassumption.
  - destruct (nth_error (senders w) i) as [st|];
      [|injection H as <-; exact Hb].
    destruct (sendLoop w st inp) as [[st' w1]|] eqn:E; [|discriminate].
    cbn in H. injection H as <-. cbn.
    eapply sendLoop_bounded; eassumption.
  - unfold reportLoop in H. destruct (reportLoopRunning w); cbn in H;
      [|injection H as <-; exact Hb].
    destruct inp.
    + destruct (closed (shutdown (client w)));
        [|injection H as <-; exact Hb].
      destruct (wgDone (client w)) as [c1|] eqn:E; [|discriminate].
      cbn in H. injection H as <-. apply wgDone_eq in E.
      destruct E as [-> _]. exact Hb.
    + destruct (lostPacketsPeriod (client w) >? 0); injection H as <-;
        exact Hb.
  - unfold Close, closeChan in H.
    destruct (closed (shutdown (client w))); cbn in H; [discriminate|].
    injection H as <-. exact Hb.
Qed.

(** X7: the queue and the pool keep the capacities that the options gave
    them, and never hold more packets or buffers than that. *)
Theorem queue_and_pool_stay_within_capacity (F : float -> bytes)
  (D : Defaults) (addr : bytes) (opts : list Option_) (es : list Event)
  (w0 w : World) :
  NewClient D addr opts = Ok w0 ->
  run F w0 es = Ok w ->
  capacity (sendQueue (client w)) = SendQueueCapacity (options (client w0)) /\
  len (items (sendQueue (client w)))
    <= SendQueueCapacity (options (client w0)) /\
  capacity (bufPool (client w)) = BufPoolCapacity (options (client w0)) /\
  len (items (bufPool (client w))) <= BufPoolCapacity (options (client w0)).
Proof.
  intros H0 Hrun.
  assert (Hb0 : bounded (SendQueueCapacity (options (client w0)))
                        (BufPoolCapacity (options (client w0))) (client w0)).
  { unfold NewClient in H0.
    destruct (_ <? 0); [discriminate|].
    destruct (BufPoolCapacity _ <? 0) eqn:E1; [discriminate|].
    destruct (SendQueueCapacity _ <? 0) eqn:E2; [discriminate|].
    cbn in H0. injection H0 as <-. unfold bounded, len. cbn.
    repeat split; lia. }
  revert Hb0. generalize (SendQueueCapacity (options (client w0))) as q.
  generalize (BufPoolCapacity (options (client w0))) as p.
  intros p q Hb0. clear H0. revert w0 Hb0 Hrun.
  induction es as [|e es IH]; intros w0 Hb0 Hrun; simpl in Hrun.
  - injection Hrun as <-. exact Hb0.
  - destruct (step F w0 e) as [w1|] eqn:E; [|discriminate]. cbn in Hrun.
    apply (IH w1); [|exact Hrun]. eapply step_bounded; eassumption.
Qed.

Lemma queue_and_pool_stay_within_capacity_witness :
  exists w,
    NewClient sampleDefaults (B "127.0.0.1:8125") narrowOpts = Ok narrow0 /\
    run sampleFormat narrow0 lossyEvents = Ok w /\
    items (sendQueue (client w)) = [countLine] /\
    len (items (sendQueue (client w)))
      <= SendQueueCapacity (options (client narrow0)) /\
    SendQueueCapacity (options (client narrow0)) = 1.
Proof.
  assert (E0 : NewClient sampleDefaults (B "127.0.0.1:8125") narrowOpts
               = Ok narrow0) by (vm_compute; reflexivity).
  assert (E : exists w, run sampleFormat narrow0 lossyEvents = Ok w /\
                        items (sendQueue (client w)) = [countLine])
    by (vm_compute; eexists; split; reflexivity).
  destruct E as (w & E & Hq).
  exists w. repeat (split; [assumption|]).
  destruct (queue_and_pool_stay_within_capacity sampleFormat sampleDefaults
              (B "127.0.0.1:8125") narrowOpts lossyEvents narrow0 w E0 E)
    as (_ & Hle & _).
  split; [exact Hle | reflexivity].
Defined.

(** ** Decrements *)

(** X8: [Decr] is [Incr] of the negated count for every count but the
    least [int64], whose negation wraps to itself: decrementing by
    -9223372036854775808 sends that same negative count. *)
Theorem Decr_negates_in_int64 (c : Client) (stat : bytes) (n : Z) :
  Int64.in_range n ->
  (n <> Int64.min_int -> Decr c stat n = Incr c stat (- n)) /\
  Decr c stat Int64.min_int = Incr c stat Int64.min_int /\
  Decr c stat Int64.min_int
  = emitLine c (metricLine (options c) stat (B "-9223372036854775808")
                  (B "|c")).
Proof.
  unfold Int64.in_range, Int64.min_int, Int64.max_int. intros Hn.
  split; [|split].
  - intros Hne. unfold Decr, Int64.neg, Int64.wrap.
    replace ((- n + 2 ^ 63) mod 2 ^ 64 - 2 ^ 63) with (- n);
      [reflexivity|].
    rewrite Z.mod_small; lia.
  - unfold Decr. reflexivity.
  - unfold Decr. rewrite Incr_emit by (vm_compute; discriminate).
    reflexivity.
Qed.

Lemma Decr_negates_in_int64_witness :
  Int64.in_range 30 /\
  Decr sampleClient (B "req.count") 30
  = Incr sampleClient (B "req.count") (-30).
Proof.
  assert (H : Int64.in_range 30)
    by (unfold Int64.in_range, Int64.min_int, Int64.max_int; lia).
  split; [exact H|].
  destruct (Decr_negates_in_int64 sampleClient (B "req.count") 30 H)
    as (Hneg & _).
  apply Hneg. vm_compute. discriminate.
Defined.

(** ** The text of counters and timings *)

(** The digits [formatBits] writes for a positive number start with a
    digit that is not zero. *)
Lemma formatBits_head (fuel : nat) (u : Z) (acc : bytes) :
  0 < u < 10 ^ Z.of_nat fuel ->
  exists m rest,
    1 <= m <= 9 /\ strconv.formatBits fuel u acc = strconv.digit m :: rest.
Proof.
  revert u acc. induction fuel as [|fuel IH]; intros u acc Hu.
  - simpl in Hu. lia.
  - cbn [strconv.formatBits]. destruct (10 <=? u) eqn:E.
    + apply Z.leb_le in E. apply IH. split.
      * apply Z.div_str_pos. lia.
      * apply Z.div_lt_upper_bound; [lia|].
        rewrite Nat2Z.inj_succ, Z.pow_succ_r in Hu; lia.
    + exists u, acc. split; [lia | reflexivity].
Qed.

Lemma digit_nonzero (m : Z) : 1 <= m <= 9 -> strconv.digit m <> x30.
Proof.
  intros H E. apply (f_equal (fun b => Z.of_N (Byte.to_N b))) in E.
  rewrite digit_value in E by lia.
  change (Z.of_N (Byte.to_N x30)) with 48 in E. lia.
Qed.

(** The decimal of a number other than zero has no leading zero. *)
Lemma FormatInt_canonical (v : Z) :
  Int64.in_range v ->
  exists ds,
    Forall isDigit ds /\ decimalValue ds = Z.abs v /\
    strconv.FormatInt v = (if v <? 0 then x2d :: ds else ds) /\
    (v = 0 -> ds = [x30]) /\
    (v <> 0 -> exists d rest, ds = d :: rest /\ d <> x30).
Proof.
  intros Hv. pose proof Hv as Hr.
  unfold Int64.in_range, Int64.min_int, Int64.max_int in Hr.
  destruct (FormatInt_decimal v Hv) as (ds & Hd & Hval & Hfmt).
  exists ds. repeat (split; [assumption|]). split.
  - intros ->. cbn in Hfmt. congruence.
  - intros Hne. unfold strconv.FormatInt in Hfmt.
    destruct (v <? 0) eqn:E.
    + destruct (formatBits_head 20 ((- v) mod 2 ^ 64) []) as (m & rest & Hm & Eh).
      * rewrite Z.mod_small by lia. change (Z.of_nat 20) with 20. lia.
      * rewrite Eh in Hfmt. injection Hfmt as <-.
        exists (strconv.digit m), rest. split; [reflexivity|].
        apply digit_nonzero. exact Hm.
    + destruct (formatBits_head 20 v []) as (m & rest & Hm & Eh).
      * change (Z.of_nat 20) with 20. lia.
      * rewrite Eh in Hfmt. subst ds.
        exists (strconv.digit m), rest. split; [reflexivity|].
        apply digit_nonzero. exact Hm.
Qed.

(** X9: the count of [Incr] and the delta of [Timing] are written in
    canonical decimal: a minus for a negative number, then the digits of
    the absolute value, with no leading zero (the single digit 0 for
    zero, which [Timing] sends and [Incr] does not). *)
Theorem counter_and_timing_text (c : Client) (stat : bytes) (n : Z) :
  Int64.in_range n ->
  exists ds,
    Forall isDigit ds /\ decimalValue ds = Z.abs n /\
    (n = 0 -> ds = [x30]) /\
    (n <> 0 -> exists d rest, ds = d :: rest /\ d <> x30) /\
    (n <> 0 ->
     Incr c stat n
     = emitLine c (metricLine (options c) stat
                     (if n <? 0 then x2d :: ds else ds) (B "|c"))) /\
    Timing c stat n
    = emitLine c (metricLine (options c) stat
                    (if n <? 0 then x2d :: ds else ds) (B "|ms")).
Proof.
  intros Hn.
  destruct (FormatInt_canonical n Hn) as (ds & Hd & Hval & Hfmt & Hz & Hnz).
  exists ds. repeat (split; [assumption|]). split.
  - intros Hne. rewrite Incr_emit by exact Hne. rewrite Hfmt. reflexivity.
  - rewrite Timing_emit, Hfmt. reflexivity.
Qed.

Lemma counter_and_timing_text_witness :
  Int64.in_range (-100) /\
  exists ds,
    decimalValue ds = 100 /\
    Timing sampleClient (B "req.duration") (-100)
    = emitLine sampleClient
        (metricLine (options sampleClient) (B "req.duration") (x2d :: ds)
           (B "|ms")).
Proof.
  assert (H : Int64.in_range (-100))
    by (unfold Int64.in_range, Int64.min_int, Int64.max_int; lia).
  split; [exact H|].
  destruct (counter_and_timing_text sampleClient (B "req.duration") (-100) H)
    as (ds & _ & Hval & _ & _ & _ & Ht).
  exists ds. split; [exact Hval | exact Ht].
Defined.

(** ** Set values are written as they are *)

(** X10: [SetAdd] writes the value as it is.  A value that holds the end
    of a set line and the start of another is sent as two set lines: when
    the text fits the buffer, the one call does what the two calls do. *)
Theorem SetAdd_does_not_escape (c : Client) (stat value stat2 value2 : bytes) :
  len (buf c)
  + len (metricLine (options c) stat
           (value ++ B "|s" ++ [newline] ++ MetricPrefix (options c)
            ++ stat2 ++ [x3a] ++ value2) (B "|s"))
  <= MaxPacketSize (options c) ->
  SetAdd c stat
    (value ++ B "|s" ++ [newline] ++ MetricPrefix (options c)
     ++ stat2 ++ [x3a] ++ value2)
  = (c1 <- SetAdd c stat value ;; SetAdd c1 stat2 value2).
Proof.
  intros Hfit. rewrite !SetAdd_emit.
  unfold metricLine in *. rewrite !len_app in Hfit.
  pose proof (len_nonneg (MetricPrefix (options c))).
  pose proof (len_nonneg stat). pose proof (len_nonneg stat2).
  pose proof (len_nonneg value). pose proof (len_nonneg value2).
  pose proof (len_nonneg (B "|s")).
  assert (L1 : len [x3a] = 1) by reflexivity.
  assert (L2 : len [newline] = 1) by reflexivity.
  rewrite emitLine_fits by (rewrite !len_app; lia).
  rewrite emitLine_fits by (rewrite !len_app; lia).
  cbn [bind]. rewrite SetAdd_emit. cbn [options with_buf buf].
  rewrite emitLine_fits
    by (cbn [options with_buf buf]; unfold metricLine; rewrite !len_app; lia).
  unfold with_buf, metricLine.
  cbn [options bufPool buf bufSize sendQueue shutdown shutdownWg
       lostPacketsPeriod lostPacketsOverall].
  do 2 f_equal. repeat rewrite <- app_assoc. reflexivity.
Qed.

Lemma SetAdd_does_not_escape_witness :
  exists c',
    SetAdd sampleClient (B "req.users")
      (B "alice|s" ++ [newline] ++ B "foo.req.admins:mallory") = Ok c' /\
    (c1 <- SetAdd sampleClient (B "req.users") (B "alice") ;;
     SetAdd c1 (B "req.admins") (B "mallory")) = Ok c' /\
    buf c' = B "foo.req.users:alice|s" ++ [newline]
             ++ B "foo.req.admins:mallory|s" ++ [newline].
Proof.
  assert (Hfit : len (buf sampleClient)
    + len (metricLine (options sampleClient) (B "req.users")
             (B "alice" ++ B "|s" ++ [newline]
              ++ MetricPrefix (options sampleClient)
              ++ B "req.admins" ++ [x3a] ++ B "mallory") (B "|s"))
    <= MaxPacketSize (options sampleClient)) by (vm_compute; discriminate).
  pose proof (SetAdd_does_not_escape sampleClient (B "req.users") (B "alice")
                (B "req.admins") (B "mallory") Hfit) as E.
  eexists. split; [|split].
  - vm_compute. reflexivity.
  - rewrite <- E. vm_compute. reflexivity.
  - reflexivity.
Defined.

(** ** A line longer than a packet, on an empty buffer *)



(** ** The shape of the datagrams *)

Lemma joined_last (init : list bytes) (lst : bytes) :
  exists front, joined (init ++ [lst]) = front ++ lst.
Proof.
  induction init as [|b init IH].
  - exists []. reflexivity.
  - destruct IH as [front E]. cbn [app].
    destruct (init ++ [lst]) as [|x rest] eqn:El.
    + destruct init; discriminate.
    + change (joined (b :: x :: rest))
        with (b ++ newline :: joined (x :: rest)).
      rewrite E. exists (b ++ newline :: front).
      rewrite <- app_assoc. reflexivity.
Qed.

Lemma suffixed_app (front d : bytes) : suffixed d -> suffixed (front ++ d).
Proof.
  intros (f & s & -> & Hs). exists (front ++ f), s.
  rewrite app_assoc. auto.
Qed.

Lemma metricLine_suffixed (o : ClientOptions) (stat value suffix : bytes) :
  typeSuffix suffix ->
  exists body,
    metricLine o stat value suffix = body ++ [newline] /\ suffixed body.
Proof.
  intros Hs. exists (MetricPrefix o ++ stat ++ [x3a] ++ value ++ suffix).
  split.
  - unfold metricLine. repeat rewrite <- app_assoc. reflexivity.
  - exists (MetricPrefix o ++ stat ++ [x3a] ++ value), suffix.
    split; [repeat rewrite <- app_assoc; reflexivity | exact Hs].
Qed.

Lemma linesOf_suffixed (F : float -> bytes) (o : ClientOptions)
  (k : Call) (l : bytes) :
  In l (linesOf F o k) ->
  exists body, l = body ++ [newline] /\ suffixed body.
Proof.
  unfold typeSuffix.
  destruct k; cbn [linesOf]; unfold gaugeLine; repeat break_match; simpl;
    intros H;
    repeat (destruct H as [<-|H];
            [apply metricLine_suffixed; unfold typeSuffix; tauto|]);
    contradiction.
Qed.

Lemma suffixed_end (d : bytes) :
  suffixed d -> d <> [] /\ forall front, d <> front ++ [newline].
Proof.
  intros (f & s & -> & Hs). split.
  - destruct Hs as [-> |[-> |[-> | ->]]]; destruct f; discriminate.
  - intros front E.
    destruct Hs as [-> |[-> |[-> | ->]]];
      [change (B "|c") with ([x7c] ++ [x63]) in E
      |change (B "|ms") with ([x7c; x6d] ++ [x73]) in E
      |change (B "|g") with ([x7c] ++ [x67]) in E
      |change (B "|s") with ([x7c] ++ [x73]) in E];
      rewrite app_assoc in E; apply app_inj_tail in E;
      destruct E as [_ E]; discriminate E.
Qed.

(** X12: every datagram written is non-empty, does not end in a newline,
    and ends in the type suffix of a metric: [|c], [|ms], [|g] or [|s]. *)
Theorem datagrams_end_in_a_type_suffix (F : float -> bytes) (D : Defaults)
  (addr : bytes) (opts : list Option_) (es : list Event) (w0 w : World) :
  NewClient D addr opts = Ok w0 ->
  run F w0 es = Ok w ->
  Forall (fun d => suffixed d /\ d <> [] /\
                   forall front, d <> front ++ [newline])
         (wire w).
Proof.
  intros H0 Hrun.
  destruct (NewClient_init _ _ _ _ H0) as (Hb & Hq & _ & _ & Hw & _).
  pose proof (run_good F (options (client w0)) suffixedLines suffixedLines
    (fun l => exists body, l = body ++ [newline] /\ suffixed body)
    suffixed) as G.
  assert (Hg : goodWorld (options (client w0)) suffixedLines suffixedLines
                 suffixed w).
  { cbv beta in G. eapply G.
    - exists []. split; [reflexivity | constructor].
    - intros l (body & -> & Hs). exists [body].
      split; [symmetry; apply terminated_one | constructor; auto].
    - intros a l (bodies & -> & Hall) (body & -> & Hs) _.
      exists (bodies ++ [body]). split.
      + rewrite terminated_app, terminated_one. reflexivity.
      + apply Forall_app. split; [exact Hall | constructor; auto].
    - intros a l Ha _. exact Ha.
    - intros a Ha _. exact Ha.
    - intros b (bodies & -> & Hall) Hne.
      destruct bodies as [|x rest]; [exfalso; apply Hne; reflexivity|].
      rewrite removelast_terminated by discriminate.
      destruct (@exists_last _ (x :: rest)) as (init & lst & E);
        [discriminate|].
      rewrite E in *. destruct (joined_last init lst) as [front ->].
      apply suffixed_app. apply Forall_app in Hall.
      destruct Hall as [_ Hl]. inversion Hl. assumption.
    - unfold goodWorld, goodClient. rewrite Hb, Hq, Hw.
      repeat split; auto. exists []. split; [reflexivity | constructor].
    - intros e l _ Hin. destruct e; try contradiction.
      eapply linesOf_suffixed. exact Hin.
    - exact Hrun. }
  destruct Hg as (_ & Hwire).
  eapply Forall_impl; [|exact Hwire].
  intros d Hd. split; [exact Hd | apply suffixed_end; exact Hd].
Qed.

Lemma datagrams_end_in_a_type_suffix_witness :
  exists w,
    NewClient sampleDefaults (B "127.0.0.1:8125") tightOpts = Ok world0 /\
    run sampleFormat world0 sampleEvents = Ok w /\
    wire w = [B "foo.req.count:30|c"] /\
    Forall (fun d => suffixed d /\ d <> [] /\
                     forall front, d <> front ++ [newline])
           (wire w).
Proof.
  assert (E0 : NewClient sampleDefaults (B "127.0.0.1:8125") tightOpts
               = Ok world0) by (vm_compute; reflexivity).
  assert (E : exists w, run sampleFormat world0 sampleEvents = Ok w /\
                        wire w = [B "foo.req.count:30|c"])
    by (vm_compute; eexists; split; reflexivity).
  destruct E as (w & E & Hwire).
  exists w. repeat (split; [assumption|]).
  apply (datagrams_end_in_a_type_suffix sampleFormat sampleDefaults
           (B "127.0.0.1:8125") tightOpts sampleEvents world0 w E0 E).
Defined.

(** ** The earlier buffers.go and the present one *)

(** The earlier [flushBuf] by the outcome of the send, when a buffer can
    be made. *)
Lemma earlier_flushBuf_cases (c : Client) :
  0 <= MaxPacketSize (options c) ->
  Earlier.flushBuf c =
  match trySend (sendQueue c) (buf c) with
  | Sent q =>
      Ok (mkClient (options c) (popPool (bufPool c)) [] (bufSize c) q
                   (shutdown c) (shutdownWg c)
                   (lostPacketsPeriod c) (lostPacketsOverall c))
  | WouldBlock =>
      Ok (mkClient (options c) (popPool (bufPool c)) [] (bufSize c)
                   (sendQueue c) (shutdown c) (shutdownWg c)
                   (Int64.add (lostPacketsPeriod c) 1)
                   (Int64.add (lostPacketsOverall c) 1))
  | SendOnClosed => Panic "send on closed channel"
  end.
Proof.
  intros Hmax. unfold Earlier.flushBuf, popPool.
  assert (Hm : (MaxPacketSize (options c) <? 0) = false) by lia.
  destruct (trySend (sendQueue c) (buf c)) as [q| |]; cbn;
    [| |reflexivity];
    destruct (tryRecv (bufPool c)) as [b p| |]; cbn; rewrite ?Hm;
    reflexivity.
Qed.

(** X13: when [MaxPacketSize] is not negative, [flushBuf] of the earlier
    revision does what [flushBuf] of the present one does when it is
    called with the length of the whole buffer. *)
Theorem earlier_flushBuf_is_the_whole_flush (c : Client) :
  0 <= MaxPacketSize (options c) ->
  Earlier.flushBuf c = flushBuf c (len (buf c)).
Proof.
  intros Hmax.
  rewrite (flushBuf_cases c (buf c) []) by (symmetry; apply app_nil_r).
  apply earlier_flushBuf_cases. exact Hmax.
Qed.

Lemma earlier_flushBuf_is_the_whole_flush_witness :
  0 <= MaxPacketSize (options tightClient) /\
  Earlier.flushBuf tightClient = flushBuf tightClient (len (buf tightClient)) /\
  exists c',
    Earlier.flushBuf tightClient = Ok c' /\
    buf c' = [] /\ items (sendQueue c') = [countLine].
Proof.
  assert (H : 0 <= MaxPacketSize (options tightClient))
    by (vm_compute; discriminate).
  split; [exact H|].
  split; [exact (earlier_flushBuf_is_the_whole_flush tightClient H)|].
  rewrite (earlier_flushBuf_is_the_whole_flush tightClient H).
  vm_compute. eexists. repeat split; reflexivity.
Defined.



(** ** The listener of the tests receives what was sent *)

(** *** Splitting and searching *)

Lemma listenerRead_short (ds : list bytes) :
  Forall (fun d => len d <= 1500) ds -> map listenerRead ds = ds.
Proof.
  induction 1 as [|d ds Hd _ IH]; [reflexivity|].
  cbn [map]. rewrite IH. f_equal. unfold listenerRead.
  apply firstn_all2. unfold len in Hd. lia.
Qed.

Lemma byte_eqb_refl (b : byte) : Byte.eqb b b = true.
Proof. apply Byte.byte_dec_lb. reflexivity. Qed.

Lemma Split_cons (s : bytes) (sep : byte) :
  exists part parts, strings.Split s sep = part :: parts.
Proof.
  induction s as [|x s IH]; cbn [strings.Split].
  - eauto.
  - destruct (Byte.eqb x sep); [eauto|].
    destruct IH as (p & ps & ->). eauto.
Qed.

Lemma Split_app (a b : bytes) (sep : byte) :
  strings.Split (a ++ sep :: b) sep
  = strings.Split a sep ++ strings.Split b sep.
Proof.
  induction a as [|x a IH]; cbn [app strings.Split].
  - rewrite byte_eqb_refl. reflexivity.
  - destruct (Byte.eqb x sep); [rewrite IH; reflexivity|].
    rewrite IH. destruct (Split_cons a sep) as (p & ps & ->). reflexivity.
Qed.

Lemma Split_plain (s : bytes) (sep : byte) :
  ~ In sep s -> strings.Split s sep = [s].
Proof.
  induction s as [|x s IH]; intros H; cbn [strings.Split]; [reflexivity|].
  destruct (Byte.eqb x sep) eqn:E.
  - apply Byte.byte_dec_bl in E. subst. exfalso. apply H. left. reflexivity.
  - rewrite IH; [reflexivity|]. intros Hin. apply H. right. exact Hin.
Qed.

(** Splitting the datagrams is splitting their text with the newlines
    back in place. *)
Lemma Split_terminated (ds : list bytes) :
  strings.Split (terminated ds) newline
  = flat_map (fun d => strings.Split d newline) ds ++ [[]].
Proof.
  induction ds as [|d ds IH]; [reflexivity|].
  change (terminated (d :: ds)) with ((d ++ [newline]) ++ terminated ds).
  rewrite <- app_assoc. cbn [app flat_map].
  rewrite Split_app, IH, app_assoc. reflexivity.
Qed.

Lemma flat_map_plain (bodies : list bytes) :
  Forall (fun b => ~ In newline b) bodies ->
  flat_map (fun d => strings.Split d newline) bodies = bodies.
Proof.
  induction bodies as [|b bodies IH]; intros H; [reflexivity|].
  inversion H; subst. cbn [flat_map]. rewrite Split_plain by assumption.
  rewrite IH by assumption. reflexivity.
Qed.

Lemma Index_first (a rest : bytes) (sep : byte) :
  ~ In sep a -> strings.Index (a ++ sep :: rest) sep = len a.
Proof.
  induction a as [|x a IH]; intros H; cbn [app strings.Index].
  - rewrite byte_eqb_refl. reflexivity.
  - destruct (Byte.eqb x sep) eqn:E.
    + apply Byte.byte_dec_bl in E. subst. exfalso. apply H. left. reflexivity.
    + rewrite IH by (intros Hin; apply H; right; exact Hin).
      rewrite len_cons. pose proof (len_nonneg a).
      destruct (len a =? -1) eqn:E1; lia.
Qed.

Lemma slice_middle (a v r : bytes) :
  slice (a ++ v ++ r) (len a) (len a + len v) = v.
Proof.
  unfold slice. replace (len a + len v - len a) with (len v) by lia.
  unfold len. rewrite !Nat2Z.id, skipn_app, Nat.sub_diag, skipn_all.
  cbn [skipn app]. rewrite firstn_app, Nat.sub_diag, firstn_all.
  cbn [firstn]. apply app_nil_r.
Qed.

(** *** Reading a decimal back *)

Lemma isDigitb_true (b : byte) : isDigit b -> isDigitb b = true.
Proof. unfold isDigit, isDigitb. intros H. apply andb_true_iff. lia. Qed.

Lemma forallb_digits (ds : bytes) :
  Forall isDigit ds -> forallb isDigitb ds = true.
Proof.
  induction 1 as [|d ds Hd _ IH]; [reflexivity|].
  cbn [forallb]. rewrite isDigitb_true by assumption. exact IH.
Qed.

Lemma digit_not_sign (d : byte) :
  isDigit d -> Byte.eqb d x2b = false /\ Byte.eqb d x2d = false.
Proof.
  unfold isDigit. intros H.
  split; destruct (Byte.eqb d _) eqn:E; try reflexivity;
    apply Byte.byte_dec_bl in E; subst; cbn in H; lia.
Qed.

(** [ParseInt] reads back what [FormatInt] wrote. *)
Lemma ParseInt_FormatInt (v : Z) :
  Int64.in_range v -> ParseInt (strconv.FormatInt v) = Some v.
Proof.
  intros Hv. pose proof Hv as Hr.
  unfold Int64.in_range, Int64.min_int, Int64.max_int in Hr.
  destruct (FormatInt_canonical v Hv) as (ds & Hd & Hval & -> & Hz & Hnz).
  assert (Hne : exists d rest, ds = d :: rest).
  { destruct (Z.eq_dec v 0) as [->|Hne].
    - rewrite Hz by reflexivity. eauto.
    - destruct (Hnz Hne) as (d & rest & -> & _). eauto. }
  destruct Hne as (d & rest & ->).
  pose proof (forallb_digits _ Hd) as Hall.
  destruct (v <? 0) eqn:E.
  - unfold ParseInt. change (Byte.eqb x2d x2d) with true.
    change (Byte.eqb x2d x2b) with false. cbn [orb negb andb].
    rewrite Hall, Hval.
    destruct (2 ^ 64 <=? Z.abs v) eqn:E1; [lia|].
    destruct (2 ^ 63 <? Z.abs v) eqn:E2; [lia|].
    f_equal. lia.
  - unfold ParseInt. inversion Hd as [|? ? Hd1 _]; subst.
    destruct (digit_not_sign d Hd1) as [-> ->]. cbn [orb negb andb].
    rewrite Hall, Hval.
    destruct (2 ^ 64 <=? Z.abs v) eqn:E1; [lia|].
    destruct (2 ^ 63 <=? Z.abs v) eqn:E2; [lia|].
    f_equal. lia.
Qed.

Lemma FormatInt_plain (v : Z) :
  Int64.in_range v -> plain (strconv.FormatInt v).
Proof.
  intros Hv.
  destruct (FormatInt_decimal v Hv) as (ds & Hd & _ & ->).
  assert (Hds : forall b, In b ds -> isDigit b)
    by (apply Forall_forall; exact Hd).
  assert (Hp : forall b, ~ isDigit b -> b <> x2d ->
                         ~ In b (if v <? 0 then x2d :: ds else ds)).
  { intros b Hb Hm Hin. destruct (v <? 0).
    - destruct Hin as [<-|Hin]; [congruence | auto].
    - auto. }
  unfold plain, isDigit in *.
  repeat split; apply Hp; cbn; try lia; discriminate.
Qed.

(** *** One part *)

Lemma not_in_app {A : Type} (x : A) (a b : list A) :
  ~ In x a -> ~ In x b -> ~ In x (a ++ b).
Proof. intros Ha Hb Hin. apply in_app_or in Hin. tauto. Qed.

Lemma counterBody_plain (o : ClientOptions) (stat : bytes) (count : Z) :
  plain (MetricPrefix o) -> plain stat -> Int64.in_range count ->
  ~ In newline (counterBody o stat count).
Proof.
  intros (_ & _ & P3) (_ & _ & S3) Hc.
  destruct (FormatInt_plain count Hc) as (_ & _ & F3).
  unfold counterBody. repeat apply not_in_app; auto.
  - cbn. intros [H|[]]. discriminate H.
  - cbn. intros [H|[H|[]]]; discriminate H.
Qed.

(** The listener adds the count of a counter line. *)
Lemma receivePart_counter (o : ClientOptions) (stat : bytes) (count t : Z) :
  plain (MetricPrefix o) -> plain stat -> Int64.in_range count ->
  receivePart t (counterBody o stat count) = Ok (Int64.add t count).
Proof.
  intros (P1 & P2 & _) (S1 & S2 & _) Hc.
  destruct (FormatInt_plain count Hc) as (F1 & F2 & _).
  assert (Hname : ~ In x3a (MetricPrefix o ++ stat) /\
                  ~ In x7c (MetricPrefix o ++ stat))
    by (split; apply not_in_app; assumption).
  destruct Hname as [N1 N2].
  assert (Hbody : counterBody o stat count
                  = (MetricPrefix o ++ stat) ++ x3a
                    :: strconv.FormatInt count ++ x7c :: [x63])
    by (unfold counterBody; repeat rewrite <- app_assoc; reflexivity).
  pose proof (ParseInt_FormatInt count Hc) as Hparse.
  revert Hbody Hparse N1 N2 F1 F2.
  generalize (MetricPrefix o ++ stat) as name.
  generalize (strconv.FormatInt count) as text.
  generalize (counterBody o stat count) as body.
  intros body text name -> Hparse N1 N2 F1 F2.
  pose proof (len_nonneg name). pose proof (len_nonneg text).
  assert (I1 : strings.Index (name ++ x3a :: text ++ [x7c; x63]) x3a
               = len name) by (apply Index_first; exact N1).
  assert (I2 : strings.Index (name ++ x3a :: text ++ [x7c; x63]) x7c
               = len name + 1 + len text).
  { replace (name ++ x3a :: text ++ [x7c; x63])
      with (((name ++ [x3a]) ++ text) ++ x7c :: [x63])
      by (repeat rewrite <- app_assoc; reflexivity).
    rewrite Index_first; [rewrite !len_app; reflexivity|].
    repeat apply not_in_app; auto.
    cbn. intros [E|[]]. discriminate E. }
  assert (Hs : slice (name ++ x3a :: text ++ [x7c; x63])
                 (len name + 1) (len name + 1 + len text) = text).
  { replace (name ++ x3a :: text ++ [x7c; x63])
      with ((name ++ [x3a]) ++ text ++ [x7c; x63])
      by (repeat rewrite <- app_assoc; reflexivity).
    replace (len name + 1) with (len (name ++ [x3a]))
      by (rewrite len_app; reflexivity).
    apply slice_middle. }
  unfold receivePart. rewrite I1, I2, Hs.
  destruct (len name =? -1) eqn:E1; [lia|].
  destruct (len name + 1 + len text =? -1) eqn:E2; [lia|].
  destruct (len name + 1 + len text <? len name + 1) eqn:E3; [lia|].
  cbn [orb]. rewrite Hparse. reflexivity.
Qed.

(** *** All parts *)

Lemma receiveParts_app (a b : list bytes) (t : Z) :
  receiveParts t (a ++ b) = (t1 <- receiveParts t a ;; receiveParts t1 b).
Proof.
  revert t. induction a as [|p a IH]; intros t; [reflexivity|].
  cbn [app receiveParts]. destruct (receivePart t p) as [t1|]; [|reflexivity].
  cbn. apply IH.
Qed.

Lemma receiveAll_parts (bufs : list bytes) (t : Z) :
  receiveAll t bufs
  = receiveParts t (flat_map (fun d => strings.Split d newline) bufs).
Proof.
  revert t. induction bufs as [|d bufs IH]; intros t; [reflexivity|].
  cbn [receiveAll flat_map]. rewrite receiveParts_app.
  apply bind_ext. intros t1 _. apply IH.
Qed.

Lemma wrap_in_range (z : Z) : Int64.in_range (Int64.wrap z).
Proof.
  unfold Int64.in_range, Int64.wrap, Int64.min_int, Int64.max_int.
  pose proof (Z.mod_pos_bound (z + 2 ^ 63) (2 ^ 64)). lia.
Qed.

Lemma add_zero (t : Z) : Int64.in_range t -> Int64.add t 0 = t.
Proof.
  unfold Int64.in_range, Int64.add, Int64.wrap, Int64.min_int, Int64.max_int.
  intros H. rewrite Z.add_0_r, Z.mod_small; lia.
Qed.

(** The listener, given the bodies of the lines of the events, adds up
    what the producers added up. *)
Lemma receiveParts_events (o : ClientOptions) (es : list Event) (t : Z) :
  plain (MetricPrefix o) -> Int64.in_range t ->
  Forall testEvent es ->
  receiveParts t (flat_map (bodiesOf o) es) = Ok (fold_left sentBy es t).
Proof.
  intros Hp. revert t. induction es as [|e es IH]; intros t Ht Hall;
    [reflexivity|].
  inversion Hall as [|? ? He Hes]; subst. cbn [flat_map fold_left].
  rewrite receiveParts_app.
  assert (E : receiveParts t (bodiesOf o e) = Ok (sentBy t e)
              /\ Int64.in_range (sentBy t e)).
  { destruct e as [[stat n| | | | | | | |]| | | |]; cbn in He;
      try contradiction; try (split; [reflexivity | exact Ht]).
    destruct He as [Hs Hn]. cbn [bodiesOf sentBy].
    split; [|apply wrap_in_range].
    destruct (0 =? n) eqn:E0.
    - apply Z.eqb_eq in E0. subst n. rewrite add_zero by exact Ht.
      reflexivity.
    - cbn [receiveParts]. rewrite receivePart_counter by assumption.
      reflexivity. }
  destruct E as [-> Hr]. cbn [bind]. apply IH; assumption.
Qed.

Lemma emitted_bodies (F : float -> bytes) (o : ClientOptions)
  (es : list Event) :
  Forall testEvent es ->
  List.concat (flat_map (emitted F o) es)
  = terminated (flat_map (bodiesOf o) es).
Proof.
  induction 1 as [|e es He _ IH]; [reflexivity|].
  cbn [flat_map]. rewrite concat_app, terminated_app, IH. f_equal.
  destruct e as [[stat n| | | | | | | |]| | | |]; cbn in He;
    try contradiction; try reflexivity.
  cbn [emitted linesOf bodiesOf]. destruct (0 =? n); [reflexivity|].
  unfold terminated, metricLine, counterBody. cbn [map List.concat].
  rewrite app_nil_r. repeat rewrite <- app_assoc. reflexivity.
Qed.

Lemma bodies_plain (o : ClientOptions) (es : list Event) :
  plain (MetricPrefix o) -> Forall testEvent es ->
  Forall (fun b => ~ In newline b) (flat_map (bodiesOf o) es).
Proof.
  intros Hp. induction 1 as [|e es He _ IH]; [constructor|].
  cbn [flat_map]. apply Forall_app. split; [|exact IH].
  destruct e as [[stat n| | | | | | | |]| | | |]; cbn in He;
    try contradiction; try constructor.
  cbn [bodiesOf]. destruct He as [Hs Hn].
  destruct (0 =? n); constructor; [|constructor].
  apply counterBody_plain; assumption.
Qed.

Lemma testEvent_sound (es : list Event) :
  Forall testEvent es -> forall i, ~ In (Sender i (Recv true)) es.
Proof.
  intros H i Hin. rewrite Forall_forall in H. apply (H _ Hin).
Qed.

(** X15: the listener of [TestConcurrent] receives what the producers
    sent.  When the metrics are counters with names free of [:], [|] and
    newline, no packet was lost and no write failed, nothing is left in
    the buffer or the queue, and no datagram is longer than the 1500
    bytes that [setupListener] reads, the [totalReceived] of the listener
    over the datagrams written is the [totalSent] of the producers. *)
Theorem listener_receives_what_was_sent (F : float -> bytes) (D : Defaults)
  (addr : bytes) (opts : list Option_) (es : list Event) (w0 w : World) :
  NewClient D addr opts = Ok w0 ->
  plain (MetricPrefix (options (client w0))) ->
  Forall testEvent es ->
  2 * len es <= Int64.max_int ->
  run F w0 es = Ok w ->
  GetLostPackets (client w) = 0 ->
  buf (client w) = [] ->
  items (sendQueue (client w)) = [] ->
  Forall (fun d => len d <= 1500) (wire w) ->
  receiveAll 0 (map listenerRead (wire w)) = Ok (totalSent es).
Proof.
  intros H0 Hp Hes Hlen Hrun Hlost Hbuf Hq Hshort.
  rewrite listenerRead_short by exact Hshort.
  destruct (NewClient_lineWorld _ _ _ _ H0) as [Hg Hc0].
  assert (Hz : lostPacketsOverall (client w0) = 0).
  { unfold NewClient in H0.
    repeat match type of H0 with
           | (if ?b then _ else _) = _ => destruct b; [discriminate|]
           end.
    injection H0 as <-. reflexivity. }
  pose proof (run_content F _ es w0 w Hg Hrun (testEvent_sound es Hes)) as E.
  rewrite Hz, Hc0 in E. unfold GetLostPackets in Hlost.
  unfold content in E. rewrite Hbuf, Hq in E. cbn [List.concat app] in E.
  rewrite app_nil_r, emitted_bodies in E by exact Hes.
  specialize (E ltac:(unfold Int64.min_int; lia) ltac:(lia) Hlost).
  apply (f_equal (fun s => strings.Split s newline)) in E.
  rewrite !Split_terminated in E. apply app_inv_tail in E.
  rewrite (flat_map_plain (flat_map _ es)) in E
    by (apply bodies_plain; assumption).
  rewrite receiveAll_parts, E. unfold totalSent.
  apply receiveParts_events; [exact Hp | | exact Hes].
  unfold Int64.in_range, Int64.min_int, Int64.max_int. lia.
Qed.

Lemma listener_receives_what_was_sent_witness :
  exists w,
    NewClient sampleDefaults (B "127.0.0.1:8125") tightOpts = Ok world0 /\
    plain (MetricPrefix (options (client world0))) /\
    Forall testEvent concurrentEvents /\
    2 * len concurrentEvents <= Int64.max_int /\
    run sampleFormat world0 concurrentEvents = Ok w /\
    GetLostPackets (client w) = 0 /\
    buf (client w) = [] /\
    items (sendQueue (client w)) = [] /\
    wire w = [B "foo.some.counter:7|c"; B "foo.some.counter:-3|c";
              B "foo.some.counter:1024|c"] /\
    Forall (fun d => len d <= 1500) (wire w) /\
    totalSent concurrentEvents = 1028 /\
    receiveAll 0 (map listenerRead (wire w)) = Ok 1028.
Proof.
  assert (E0 : NewClient sampleDefaults (B "127.0.0.1:8125") tightOpts
               = Ok world0) by (vm_compute; reflexivity).
  assert (Hp : plain (MetricPrefix (options (client world0)))).
  { vm_compute. repeat split; intros H;
      repeat (destruct H as [H|H]; [discriminate H|]); exact H. }
  assert (Hr : forall n, -2000 <= n <= 2000 -> Int64.in_range n)
    by (unfold Int64.in_range, Int64.min_int, Int64.max_int; lia).
  assert (Hs : plain (B "some.counter")).
  { vm_compute. repeat split; intros H;
      repeat (destruct H as [H|H]; [discriminate H|]); exact H. }
  assert (Hes : Forall testEvent concurrentEvents).
  { apply Forall_forall. intros e Hin. simpl in Hin.
    repeat (destruct Hin as [<-|Hin];
            [cbn; first [exact I | split; [exact Hs | apply Hr; lia]]|]).
    contradiction. }
  assert (Hlen : 2 * len concurrentEvents <= Int64.max_int)
    by (vm_compute; discriminate).
  assert (E : exists w,
    run sampleFormat world0 concurrentEvents = Ok w /\
    GetLostPackets (client w) = 0 /\ buf (client w) = [] /\
    items (sendQueue (client w)) = [] /\
    wire w = [B "foo.some.counter:7|c"; B "foo.some.counter:-3|c";
              B "foo.some.counter:1024|c"])
    by (vm_compute; eexists; repeat split; reflexivity).
  destruct E as (w & E & Hlost & Hbuf & Hq & Hwire).
  assert (Hshort : Forall (fun d => len d <= 1500) (wire w)).
  { rewrite Hwire. repeat constructor; vm_compute; discriminate. }
  assert (Ht : totalSent concurrentEvents = 1028) by (vm_compute; reflexivity).
  exists w. repeat (split; [assumption|]).
  rewrite <- Ht.
  apply (listener_receives_what_was_sent sampleFormat sampleDefaults
           (B "127.0.0.1:8125") tightOpts concurrentEvents world0 w
           E0 Hp Hes Hlen E Hlost Hbuf Hq Hshort).
Defined.

(** ** What is written was emitted, once and in order *)

















